(** * quantfin.models.arima: SARIMA parameter search, modelled and verified

    A shallow embedding of [src/quantfin/models/arima.py]: the grid search
    [optimize], the stationarity search [seasonality] and the error measure
    [error], then [predict] and the pipeline [main] that chains them.

    Conventions of the embedding.
    - Python [int]s are [Z]; a [range(n)] is the list [0; ...; n-1].
    - A pandas [Series] or numpy array of floats is a [list float], addressed
      by position.  A [float] is a rational or one of the IEEE special values
      [inf], [-inf], [nan]; finite arithmetic is exact (rounding and the sign
      of zero are not modelled).
    - The statsmodels routines ([SARIMAX(...).fit], [adfuller], [acf]) and the
      pandas [sort_values] are services of the environment: variables of a
      section.  A service either raises or returns finite numbers.
    - A call of a function of the module ends in an [outcome]: it returns a
      value or raises an exception, and in both cases leaves the list of the
      events (prints, service calls, plots) it produced so far. *)

From Stdlib Require Import String QArith Qabs ZArith List Bool Lia.
From Stdlib Require Import Permutation Sorted.
Import ListNotations.
Local Open Scope Z_scope.

(** ** Floats, as numpy and pandas compute with them *)

Module NumPy.

Inductive float : Type :=
| Fin (q : Q)
| PInf
| NInf
| NaN.

Definition is_nan (x : float) : bool :=
  match x with NaN => true | _ => false end.

(** The infinity of the sign of [a]; [nan] when [a] is zero.  This is what
    [a * inf] and [a / 0] evaluate to. *)
Definition signed_inf (a : Q) : float :=
  match (a ?= 0)%Q with
  | Gt => PInf
  | Lt => NInf
  | Eq => NaN
  end.

Definition fneg (x : float) : float :=
  match x with
  | Fin a => Fin (- a)
  | PInf => NInf
  | NInf => PInf
  | NaN => NaN
  end.

Definition fadd (x y : float) : float :=
  match x, y with
  | NaN, _ | _, NaN => NaN
  | Fin a, Fin b => Fin (a + b)
  | PInf, NInf | NInf, PInf => NaN
  | PInf, _ | _, PInf => PInf
  | NInf, _ | _, NInf => NInf
  end.

Definition fsub (x y : float) : float := fadd x (fneg y).

Definition fmul (x y : float) : float :=
  match x, y with
  | NaN, _ | _, NaN => NaN
  | Fin a, Fin b => Fin (a * b)
  | Fin a, PInf | PInf, Fin a => signed_inf a
  | Fin a, NInf | NInf, Fin a => signed_inf (- a)
  | PInf, PInf | NInf, NInf => PInf
  | PInf, NInf | NInf, PInf => NInf
  end.

Definition fdiv (x y : float) : float :=
  match x, y with
  | NaN, _ | _, NaN => NaN
  | Fin a, Fin b => if Qeq_bool b 0 then signed_inf a else Fin (a / b)
  | Fin _, PInf | Fin _, NInf => Fin 0
  | PInf, Fin b => match (b ?= 0)%Q with Lt => NInf | _ => PInf end
  | NInf, Fin b => match (b ?= 0)%Q with Lt => PInf | _ => NInf end
  | PInf, PInf | PInf, NInf | NInf, PInf | NInf, NInf => NaN
  end.

Definition fabs (x : float) : float :=
  match x with
  | Fin a => Fin (Qabs a)
  | PInf | NInf => PInf
  | NaN => NaN
  end.

(** [x < y]; every comparison with [nan] is false. *)
Definition flt (x y : float) : bool :=
  match x, y with
  | NaN, _ | _, NaN => false
  | Fin a, Fin b => match (a ?= b)%Q with Lt => true | _ => false end
  | _, NInf => false
  | NInf, _ => true
  | PInf, _ => false
  | Fin _, PInf => true
  end.

Definition fgt (x y : float) : bool := flt y x.

(** Equality of floats as numbers: the same rational, or the same special
    value ([nan] is related to [nan]: this is the relation of the model, not
    Python's [==]). *)
Definition feq (x y : float) : Prop :=
  match x, y with
  | Fin a, Fin b => (a == b)%Q
  | PInf, PInf | NInf, NInf | NaN, NaN => True
  | _, _ => False
  end.

Definition of_int (n : Z) : float := Fin (inject_Z n).

(** [np.mean] of a non-empty array of finite numbers: the first entry and
    the others. *)
Definition mean (x0 : Q) (xs : list Q) : Q :=
  (fold_left Qplus xs x0 / inject_Z (Z.of_nat (S (length xs))))%Q.

End NumPy.

(** ** pandas Series, by position *)

Module Pandas.
Import NumPy.

Definition Series : Type := list float.

(** [x[k:]]: a negative [k] counts from the end. *)
Definition slice_from {A : Type} (k : Z) (x : list A) : list A :=
  if k <? 0 then skipn (length x - Z.to_nat (- k)) x
  else skipn (Z.to_nat k) x.

(** [x.shift(k)]: the values move [k] places down (up when [k] is
    negative); the places left free hold [nan]; the length is kept. *)
Definition shift (k : Z) (x : Series) : Series :=
  let n := length x in
  if k <? 0 then
    let j := Nat.min (Z.to_nat (- k)) n in
    skipn j x ++ repeat NaN j
  else
    let j := Nat.min (Z.to_nat k) n in
    repeat NaN j ++ firstn (n - j) x.

(** A binary operation on two Series whose labels are their positions: a
    label that only one of them has gives [nan]. *)
Fixpoint align (op : float -> float -> float) (x y : Series) : Series :=
  match x, y with
  | a :: x', b :: y' => op a b :: align op x' y'
  | _ :: _, [] => map (fun _ => NaN) x
  | [], _ => map (fun _ => NaN) y
  end.

(** [Series.mean()], which is what [np.mean] calls on a Series: [nan]
    entries are skipped ([skipna=True]); no entry left gives [nan]. *)
Definition series_mean (x : Series) : float :=
  let valid := filter (fun v => negb (is_nan v)) x in
  match valid with
  | [] => NaN
  | _ :: _ => fdiv (fold_left fadd valid (Fin 0))
                   (of_int (Z.of_nat (length valid)))
  end.

End Pandas.

(** ** Outcomes of a call *)

Module Py.

(** The exceptions that can leave a function of the module.  The module has
    no [raise] statement and defines no exception class of its own:
    [ModuleError] is the place of such an exception, and no function below
    builds one. *)
Inductive exn : Type :=
| UnboundLocalError (name : string)
| ValueError (msg : string)
| KeyError (key : Z)
| ServiceError (msg : string)
| ModuleError (kind : string).

(** What a service of the environment answers. *)
Inductive result (A : Type) : Type :=
| Ok (a : A)
| Err (e : exn).
Arguments Ok {A} a.
Arguments Err {A} e.

(** Orders of a seasonal ARIMA model, candidate tuples and table rows. *)
Definition order : Type := Z * Z * Z.
Definition seasonal_order : Type := Z * Z * Z * Z.
Definition param : Type := Z * Z * Z * Z.
Definition row : Type := param * Q.

Inductive event : Type :=
| PrintHeader (iter_sum : Z)
| PrintBest (p : param) (aic : Q) (iter_done iter_sum : Z)
| PrintOptimized (o : order) (so : seasonal_order)
| PrintD (d : Z)
| PrintS (s : Z)
| CallFit (o : order) (so : seasonal_order)
| CallAdfuller (x : list NumPy.float)
| CallAcf (x : list NumPy.float)
| Plot.

Inductive outcome (A : Type) : Type :=
| Returns (out : list event) (a : A)
| Raises (out : list event) (e : exn).
Arguments Returns {A} out a.
Arguments Raises {A} out e.

Definition bind {A B : Type} (m : outcome A)
    (k : list event -> A -> outcome B) : outcome B :=
  match m with
  | Returns out a => k out a
  | Raises out e => Raises out e
  end.

(** A service call: the call is recorded, its exception propagates. *)
Definition call {A : Type} (out : list event) (ev : event) (r : result A)
  : outcome A :=
  match r with
  | Ok a => Returns (out ++ [ev]) a
  | Err e => Raises (out ++ [ev]) e
  end.

Definition range (n : Z) : list Z := map Z.of_nat (seq 0 (Z.to_nat n)).

(** [itertools.product(p, q, ps, qs)]: the rightmost range runs fastest. *)
Definition product (p q ps qs : list Z) : list param :=
  flat_map (fun a =>
    flat_map (fun b =>
      flat_map (fun c =>
        map (fun e => (a, b, c, e)) qs) ps) q) p.

End Py.

(** ** The module [arima.py] *)

Module Arima.
Import NumPy Pandas Py.

(** Local variables of [optimize] that live across the loop.  A local that
    has not been assigned yet is [None]. *)
Record locals : Type := mkLocals {
  results : list row;
  best_aic : float;
  iter_done : Z;
  display_header : option bool
}.

(** The message of the [ValueError] pandas raises when two column names are
    assigned to a frame without columns. *)
Definition length_mismatch : string :=
  "Length mismatch: Expected axis has 0 elements, new values have 2 elements".

(** The initial value of [p_value_best] in [seasonality]. *)
Definition p_value_threshold : Q := 1 # 10000.

(** [series - series.shift(k)]. *)
Definition data_stat (series : Series) (k : Z) : Series :=
  align fsub series (shift k series).

Section Services.

(** [SARIMAX(series, order=..., seasonal_order=...)] followed by
    [.fit(disp=-1)] and [.aic]: [None] when construction or fit raises. *)
Variable SARIMAX_fit : Series -> order -> seasonal_order -> option Q.

(** [sm.tsa.stattools.adfuller(x)[1]], the p-value. *)
Variable adfuller : Series -> result Q.

(** [sm.tsa.stattools.acf(x)]: the autocorrelation at lag 0 and at the
    further lags. *)
Variable acf : Series -> result (Q * list Q).

(** [result_table.sort_values(by='aic', ascending=True)] followed by
    [reset_index(drop=True)], on the rows of the table. *)
Variable sort_values : list row -> list row.

Section Optimize.

Variables (series : Series) (d ds s : Z) (display : bool) (iter_sum : Z).

(** The body of [for param in tqdm_notebook(parameters_list)]; the progress
    bar is not modelled. *)
Fixpoint optimize_loop (parameters_list : list param) (st : locals)
    (out : list event) : outcome locals :=
  match parameters_list with
  | [] => Returns out st
  | param :: rest =>
    match display_header st with
    | None => Raises out (UnboundLocalError "display_header")
    | Some header =>
      let out := if header then out ++ [PrintHeader iter_sum] else out in
      let iter_done' := iter_done st + 1 in
      let '(p0, q0, ps0, qs0) := param in
      let o := (p0, d, q0) in
      let so := (ps0, ds, qs0, s) in
      let out := out ++ [CallFit o so] in
      match SARIMAX_fit series o so with
      | None =>
        (* except: continue *)
        optimize_loop rest
          (mkLocals (results st) (best_aic st) iter_done' (Some false)) out
      | Some aic =>
        let better := flt (Fin aic) (best_aic st) in
        let out :=
          if better && display
          then out ++ [PrintBest param aic iter_done' iter_sum]
          else out in
        optimize_loop rest
          (mkLocals (results st ++ [(param, aic)])
                    (if better then Fin aic else best_aic st)
                    iter_done' (Some false)) out
      end
    end
  end.

End Optimize.

Definition optimize (series : Series) (p : list Z) (d : Z) (q ps : list Z)
    (ds : Z) (qs : list Z) (s : Z) (display : bool) : outcome param :=
  let parameters_list := product p q ps qs in
  let iter_sum := Z.of_nat (length parameters_list) in
  let st0 :=
    mkLocals [] PInf 0 (if display then Some true else None) in
  bind (optimize_loop series d ds s display iter_sum parameters_list st0 [])
    (fun out st =>
       match results st with
       | [] =>
         (* result_table.columns = ['parameters', 'aic'] on an empty frame *)
         Raises out (ValueError length_mismatch)
       | _ :: _ =>
         match sort_values (results st) with
         | [] => Raises out (KeyError 0)
         | (best, _) :: _ =>
           let '(p1, q1, ps1, qs1) := best in
           Returns (out ++ [PrintOptimized (p1, d, q1) (ps1, ds, qs1, s)])
                   best
         end
       end).

(** The first loop of [seasonality]: the lags still to try, the running
    best p-value and [d_best]; [break] ends the loop. *)
Fixpoint d_loop (series : Series) (lags : list Z) (p_value_best : float)
    (d_best : option Z) (out : list event) : outcome (float * option Z) :=
  match lags with
  | [] => Returns out (p_value_best, d_best)
  | d :: rest =>
    let x := slice_from d (data_stat series d) in
    bind (call out (CallAdfuller x) (adfuller x)) (fun out p_value =>
      if fgt p_value_best (Fin p_value)
      then Returns out (Fin p_value, Some d)
      else d_loop series rest p_value_best d_best out)
  end.

(** The second loop: no [break]. *)
Fixpoint s_loop (series : Series) (d : Z) (lags : list Z) (acf_best : float)
    (s_best : Z) (out : list event) : outcome (float * Z) :=
  match lags with
  | [] => Returns out (acf_best, s_best)
  | s :: rest =>
    let x := slice_from (d + s) (data_stat series (d + s)) in
    bind (call out (CallAcf x) (acf x)) (fun out r =>
      let acf_mean := Fin (mean (fst r) (snd r)) in
      if fgt acf_best acf_mean
      then s_loop series d rest acf_mean s out
      else s_loop series d rest acf_best s_best out)
  end.

(** [seasonality(series, par_range, lags, optimize, graph)]; [lags] is only
    passed on to the plots, which are one [Plot] event here. *)
Definition seasonality (series : Series) (par_range : Z)
    (optimize graph : bool) : outcome (Z * Z * Z) :=
  bind
    (if optimize then
       bind (d_loop series (range par_range) (Fin p_value_threshold) None [])
         (fun out st =>
            match snd st with
            | None => Raises out (UnboundLocalError "d_best")
            | Some d => Returns (out ++ [PrintD d]) (Some d)
            end)
     else Returns [] None)
    (fun out d =>
  bind
    (if optimize then
       match d with
       | None => Raises out (UnboundLocalError "d")
       | Some d0 =>
         bind (s_loop series d0 (range par_range) PInf 0 out)
           (fun out st =>
              let s := snd st in
              let ds := if s >? 0 then 1 else 0 in
              Returns (out ++ [PrintS s]) (Some (ds, s)))
       end
     else Returns out None)
    (fun out dss =>
  match d, dss with
  | Some d0, Some (ds, s) =>
    let x := slice_from (d0 + s) (data_stat series (d0 + s)) in
    bind (call out (CallAdfuller x) (adfuller x)) (fun out _ =>
      Returns (if graph then out ++ [Plot] else out) (d0, ds, s))
  | _, _ => Raises out (UnboundLocalError "d")
  end)).

End Services.

(** One point of [np.abs(ratio - 1) * 100]. *)
Definition percent_error (ratio : float) : float :=
  fmul (fabs (fsub ratio (Fin 1))) (Fin 100).

(** [error(data, predict, graph)], on [predict.predicted_mean]. *)
Definition error (data predicted_mean : Series) (graph : bool)
  : outcome float :=
  let predict_error :=
    map percent_error
        (align fdiv (slice_from 10 data) (slice_from 10 predicted_mean)) in
  let predict_error_ma := series_mean predict_error in
  Returns (if graph then [Plot] else []) predict_error_ma.

(** *** Vocabulary of the properties *)

(** The AIC that the fitting service gives a candidate tuple, under the
    fixed orders [(d, ds, s)]. *)
Definition aic_of (fit : Series -> order -> seasonal_order -> option Q)
    (series : Series) (d ds s : Z) (c : param) : option Q :=
  let '(p0, q0, ps0, qs0) := c in
  fit series (p0, d, q0) (ps0, ds, qs0, s).

(** The rows [optimize] records for a list of candidates: one per successful
    fit, in the order of the candidates. *)
Definition recorded (fit : Series -> order -> seasonal_order -> option Q)
    (series : Series) (d ds s : Z) (cs : list param) : list row :=
  flat_map (fun c =>
    match aic_of fit series d ds s c with
    | Some a => [(c, a)]
    | None => []
    end) cs.

Definition aic_le (r1 r2 : row) : Prop := (snd r1 <= snd r2)%Q.

(** What [sort_values(by='aic', ascending=True)] promises for every [kind]
    of sort: the same rows, in ascending order of AIC. *)
Definition sorts_by_aic (sort : list row -> list row) : Prop :=
  forall rows, Permutation (sort rows) rows /\ Sorted aic_le (sort rows).


(** [best] is the first candidate of [cs], in order, whose fit succeeds with
    the least AIC: the candidates before it that fit have a strictly larger
    AIC, those after it none smaller. *)
Definition first_minimum (fit : Series -> order -> seasonal_order -> option Q)
    (series : Series) (d ds s : Z) (cs : list param) (best : param) : Prop :=
  exists before after a,
    cs = before ++ best :: after /\
    aic_of fit series d ds s best = Some a /\
    (forall c a', In c before ->
       aic_of fit series d ds s c = Some a' -> (a < a')%Q) /\
    (forall c a', In c after ->
       aic_of fit series d ds s c = Some a' -> (a <= a')%Q).

(** [best] fits, and no candidate of [cs] that fits has a smaller AIC. *)
Definition minimum_aic (fit : Series -> order -> seasonal_order -> option Q)
    (series : Series) (d ds s : Z) (cs : list param) (best : param) : Prop :=
  In best cs /\
  exists a,
    aic_of fit series d ds s best = Some a /\
    forall c a', In c cs ->
      aic_of fit series d ds s c = Some a' -> (a <= a')%Q.

(** The input of the statistical tests at lag [k]: [data_stat[k:]]. *)
Definition lagged (series : Series) (k : Z) : Series :=
  slice_from k (data_stat series k).

(** The calls of the services a scan over [lags] makes. *)
Definition adfuller_calls (series : Series) (lags : list Z) : list event :=
  map (fun k => CallAdfuller (lagged series k)) lags.

Definition acf_calls (series : Series) (d : Z) (lags : list Z)
  : list event :=
  map (fun k => CallAcf (lagged series (d + k))) lags.

(** The mean autocorrelation of the series differenced at lag [k], when
    [acf] answers. *)
Definition mean_acf (acf : Series -> result (Q * list Q)) (series : Series)
    (k : Z) : option Q :=
  match acf (lagged series k) with
  | Ok r => Some (mean (fst r) (snd r))
  | Err _ => None
  end.

(** No lag of [lags] has a p-value below the threshold [t]. *)
Definition no_improvement (adfuller : Series -> result Q) (series : Series)
    (t : Q) (lags : list Z) : Prop :=
  forall k, In k lags ->
    exists pv, adfuller (lagged series k) = Ok pv /\ (t <= pv)%Q.

(** Failure through an exception of the module's own. *)
Definition explicit_failure {A : Type} (o : outcome A) : Prop :=
  exists out kind, o = Raises out (ModuleError kind).

Definition raises {A : Type} (o : outcome A) : Prop :=
  exists out e, o = Raises out e.

(** The error measure as the specification words it: the mean of
    [|actual / predicted - 1|] over the points after the first ten, times
    100. *)
Definition mape_spec (data predicted_mean : Series) : float :=
  fmul (series_mean
          (map (fun v => fabs (fsub v (Fin 1)))
               (align fdiv (slice_from 10 data)
                           (slice_from 10 predicted_mean))))
       (Fin 100).

(** A value that is finite and not zero. *)
Definition finite_nonzero (x : float) : Prop :=
  match x with
  | Fin a => ~ (a == 0)%Q
  | _ => False
  end.

Definition is_zero (x : float) : Prop :=
  match x with
  | Fin a => (a == 0)%Q
  | _ => False
  end.

End Arima.

(** ** Concrete services, for running the model *)

Module Samples.
Import NumPy Pandas Py Arima.

(** Insertion into a list sorted by AIC, before the first row whose AIC is
    not smaller: rows of equal AIC keep their order. *)
Fixpoint insert_row (r : row) (rows : list row) : list row :=
  match rows with
  | [] => [r]
  | r' :: rest =>
    if Qle_bool (snd r) (snd r') then r :: rows
    else r' :: insert_row r rest
  end.

Definition insertion_sort (rows : list row) : list row :=
  fold_right insert_row [] rows.



(** A fitting service: the fit fails when [p = 1]; otherwise the AIC is
    [|p - 2| + q]. *)
Definition fit_sample (_ : Series) (o : order) (_ : seasonal_order)
  : option Q :=
  let '(p0, _, q0) := o in
  if p0 =? 1 then None else Some (inject_Z (Z.abs (p0 - 2) + q0)).


(** A fitting service under which every fit fails. *)
Definition fit_none (_ : Series) (_ : order) (_ : seasonal_order)
  : option Q := None.

(** A stationarity test that rejects only samples of fewer than four
    points. *)
Definition adfuller_sample (x : Series) : result Q :=
  if (length x <? 4)%nat then Ok (1 # 100000)%Q else Ok (1 # 2)%Q.

(** A stationarity test that never rejects. *)
Definition adfuller_half (_ : Series) : result Q := Ok (1 # 2)%Q.

(** An autocorrelation whose mean is smallest on samples of two points. *)
Definition acf_sample (x : Series) : result (Q * list Q) :=
  Ok (1%Q, [inject_Z (Z.abs (Z.of_nat (length x) - 2))]).

Definition series_sample : Series :=
  map of_int [10; 12; 11; 13; 12; 14].

Definition series_short : Series := map of_int [10; 12; 11].

(** Actual values and predictions: ten warm-up points, then the scored
    ones. *)
Definition warm_up : Series := repeat (of_int 1) 10.
Definition actual_sample : Series := warm_up ++ map of_int [5; 4].
Definition predicted_zero : Series := warm_up ++ map of_int [0; 4].
Definition flat_zero : Series := warm_up ++ map of_int [0].

End Samples.

(** ** What a call leaves behind *)

Module Observe.
Import NumPy Pandas Py Arima.

(** The events of a call, whether it returned or raised. *)
Definition trace {A : Type} (o : outcome A) : list event :=
  match o with
  | Returns out _ => out
  | Raises out _ => out
  end.

(** The fit that [optimize] attempts for a candidate. *)
Definition fit_call (d ds s : Z) (c : param) : event :=
  let '(p0, q0, ps0, qs0) := c in
  CallFit (p0, d, q0) (ps0, ds, qs0, s).

Definition is_progress (e : event) : bool :=
  match e with
  | PrintBest _ _ _ _ | PrintOptimized _ _ => true
  | _ => false
  end.

(** The progress lines of a trace: candidate, AIC and iteration number of
    each [print(param, '| ... |.../...')]. *)
Definition best_lines (out : list event) : list (param * Q * Z) :=
  flat_map (fun e =>
    match e with
    | PrintBest c a i _ => [(c, a, i)]
    | _ => []
    end) out.

Definition line_aic (l : param * Q * Z) : Q := snd (fst l).

(** The progress lines the loop of [optimize] prints over the candidates
    [cs], from a running best [best] and [i] iterations done. *)
Fixpoint improvements (fit : Series -> order -> seasonal_order -> option Q)
    (series : Series) (d ds s : Z) (best : float) (i : Z) (cs : list param)
  : list (param * Q * Z) :=
  match cs with
  | [] => []
  | c :: rest =>
    match aic_of fit series d ds s c with
    | None => improvements fit series d ds s best (i + 1) rest
    | Some a =>
      if flt (Fin a) best
      then (c, a, i + 1)
             :: improvements fit series d ds s (Fin a) (i + 1) rest
      else improvements fit series d ds s best (i + 1) rest
    end
  end.

(** All values of a Series are finite. *)
Definition all_finite (x : Series) : Prop :=
  forall v, In v x -> exists a, v = Fin a.


(** A value that is [nan], [inf] or a rational that is not negative. *)
Definition not_negative (x : float) : Prop :=
  x = NaN \/ x = PInf \/ exists q, x = Fin q /\ (0 <= q)%Q.

End Observe.

(** A fitting service that fails on [p = 0] and whose AIC falls, rises and
    falls again along the candidates. *)
Module MoreSamples.
Import NumPy Pandas Py Arima.

Definition fit_wavy (_ : Series) (o : order) (_ : seasonal_order)
  : option Q :=
  let '(p0, _, q0) := o in
  if p0 =? 0 then None
  else Some (inject_Z (Z.abs (2 * p0 + q0 - 5))).

(** A stationarity test that raises on samples of fewer than three points
    and never rejects. *)
Definition adfuller_strict (x : Series) : result Q :=
  if (length x <? 3)%nat then Err (ValueError "sample too short")
  else Ok (1 # 2)%Q.


(** An autocorrelation that raises on an empty sample. *)
Definition acf_strict (x : Series) : result (Q * list Q) :=
  match x with
  | [] => Err (ValueError "empty sample")
  | _ :: _ => Ok (1%Q, [])
  end.


End MoreSamples.

(** ** The rest of the module: [predict] and [main] *)

Module Pipeline.
Import NumPy Pandas Py Arima.

(** What [main] does besides the events of the functions it calls. *)
Inductive step : Type :=
| Inner (e : event)
| CallReadCsv
| CallFilter (o : order) (so : seasonal_order)
| CallGetPrediction (dynamic : Z)
| CallConfInt.

Inductive run (A : Type) : Type :=
| Done (out : list step) (a : A)
| Failed (out : list step) (e : exn).
Arguments Done {A} out a.
Arguments Failed {A} out e.


Definition then_ {A B : Type} (m : run A) (k : list step -> A -> run B)
  : run B :=
  match m with
  | Done out a => k out a
  | Failed out e => Failed out e
  end.

(** A call of a function of the module, after the steps [out]. *)
Definition inner {A : Type} (out : list step) (o : outcome A) : run A :=
  match o with
  | Returns ev a => Done (out ++ map Inner ev) a
  | Raises ev e => Failed (out ++ map Inner ev) e
  end.

(** A call of a service, after the steps [out]. *)
Definition service {A : Type} (out : list step) (st : step) (r : result A)
  : run A :=
  match r with
  | Ok a => Done (out ++ [st]) a
  | Err e => Failed (out ++ [st]) e
  end.


Section Main.

(** The filtered results of a model and the predictions drawn from them:
    objects of statsmodels, opaque here. *)
Variables Results Prediction : Type.

(** [pd.read_csv('../data/^GSPC.csv', ...)['Adj Close']]. *)
Variable read_csv : result Series.

Variable SARIMAX_fit : Series -> order -> seasonal_order -> option Q.
Variable adfuller : Series -> result Q.
Variable acf : Series -> result (Q * list Q).
Variable sort_values : list row -> list row.

(** [SARIMAX(data, order, seasonal_order)], then
    [model.filter(model.fit(disp=False).params)] and [result.summary()]. *)
Variable SARIMAX_filter :
  Series -> order -> seasonal_order -> result Results.

(** [result.get_prediction(dynamic=...)]. *)
Variable get_prediction : Results -> Z -> result Prediction.

(** [predict.conf_int()]; the interval is only plotted. *)
Variable conf_int : Prediction -> result unit.

(** [predict.predicted_mean]. *)
Variable predicted_mean : Prediction -> Series.

(** [predict(data, result, n_predict, graph)], after the steps [out]. *)
Definition predict (data : Series) (result : Results) (n_predict : Z)
    (graph : bool) (out : list step) : run Prediction :=
  then_ (service out
           (CallGetPrediction (Z.of_nat (length data) - n_predict))
           (get_prediction result (Z.of_nat (length data) - n_predict)))
    (fun out predict =>
  then_ (service out CallConfInt (conf_int predict))
    (fun out _ =>
  Done (if graph then out ++ [Inner Plot] else out) predict)).

(** The candidate ranges [main] gives [optimize]: [p] and [q], and the
    seasonal [ps] and [qs], which depend on [ds]. *)
Definition main_ranges (ds : Z) : list Z * list Z * list Z * list Z :=
  if ds =? 0 then (range 5, range 5, [0], [0])
  else (range 5, range 5, range 3, range 3).

(** [main()]. *)
Definition main : run unit :=
  then_ (service [] CallReadCsv read_csv) (fun out data =>
  then_ (inner out (seasonality adfuller acf data 100 true true))
    (fun out dss =>
  let '(d, ds, s) := dss in
  let n_predict := 2 in
  let '(p, q, ps, qs) := main_ranges ds in
  then_ (inner out
           (optimize SARIMAX_fit sort_values data p d q ps ds qs s true))
    (fun out best =>
  let '(p1, q1, ps1, qs1) := best in
  then_ (service out (CallFilter (p1, d, q1) (ps1, ds, qs1, s))
           (SARIMAX_filter data (p1, d, q1) (ps1, ds, qs1, s)))
    (fun out result =>
  then_ (predict data result n_predict true out) (fun out prediction =>
  then_ (inner out (error data (predicted_mean prediction) true))
    (fun out _ => Done out tt)))))).

End Main.

End Pipeline.

(** Services for running [main]: the model results are the orders they
    were filtered with, a prediction is its mean. *)
Module PipelineSamples.
Import NumPy Pandas Py Arima Pipeline.

Definition filter_sample (_ : Series) (o : order) (so : seasonal_order)
  : result (order * seasonal_order) := Ok (o, so).

Definition prediction_sample (data : Series)
    (_ : order * seasonal_order) (_ : Z) : result Series := Ok data.

Definition conf_int_sample (_ : Series) : result unit := Ok tt.

Definition data_sample : Series :=
  map of_int [10; 12; 11; 13; 12; 14; 13; 15; 14; 16; 15; 17].



(** An autocorrelation with the same mean on every sample. *)
Definition acf_flat (_ : Series) : result (Q * list Q) := Ok (1%Q, []).

End PipelineSamples.

(** * Properties *)

Import NumPy Pandas Py Arima Samples.

(** ** The grid search *)

Section OptimizeFacts.

Variable fit : Series -> order -> seasonal_order -> option Q.
Variable sort : list row -> list row.
Variables (series : Series) (d ds s : Z).

Local Abbreviation aic := (aic_of fit series d ds s).
Local Abbreviation rec_rows := (recorded fit series d ds s).

(** Once [display_header] is bound the loop runs to its end and records
    exactly the successful fits, in order. *)
Lemma optimize_loop_runs display iter_sum :
  forall cs st out h,
    display_header st = Some h ->
    exists out' st',
      optimize_loop fit series d ds s display iter_sum cs st out
        = Returns out' st'
      /\ results st' = results st ++ rec_rows cs.
Proof.
  induction cs as [|c cs IH]; intros st out h Hh.
  - exists out, st. split; [reflexivity|].
    unfold recorded. simpl. now rewrite app_nil_r.
  - destruct c as [[[p0 q0] ps0] qs0].
    cbn [optimize_loop]. rewrite Hh.
    unfold recorded in *. cbn [flat_map aic_of].
    destruct (fit series (p0, d, q0) (ps0, ds, qs0, s)) as [a|].
    + edestruct IH as (out' & st' & Hrun & Hres);
        [| exists out', st'; split; [exact Hrun|]].
      * reflexivity.
      * rewrite Hres. cbn [results]. now rewrite <- app_assoc.
    + edestruct IH as (out' & st' & Hrun & Hres);
        [| exists out', st'; split; [exact Hrun|]].
      * reflexivity.
      * rewrite Hres. reflexivity.
Qed.

(** With [display_header] unbound the first iteration already fails. *)
Lemma optimize_loop_unbound display iter_sum c cs st out :
  display_header st = None ->
  optimize_loop fit series d ds s display iter_sum (c :: cs) st out
    = Raises out (UnboundLocalError "display_header").
Proof.
  intros H. cbn [optimize_loop]. now rewrite H.
Qed.

(** [optimize] with [display=True], by cases on the recorded rows. *)
Lemma optimize_display_on p q ps qs :
  exists out,
    optimize fit sort series p d q ps ds qs s true =
    match rec_rows (product p q ps qs) with
    | [] => Raises out (ValueError length_mismatch)
    | _ :: _ =>
      match sort (rec_rows (product p q ps qs)) with
      | [] => Raises out (KeyError 0)
      | (best, _) :: _ =>
        let '(p1, q1, ps1, qs1) := best in
        Returns (out ++ [PrintOptimized (p1, d, q1) (ps1, ds, qs1, s)]) best
      end
    end.
Proof.
  unfold optimize.
  destruct (optimize_loop_runs true
              (Z.of_nat (length (product p q ps qs)))
              (product p q ps qs)
              (mkLocals [] PInf 0 (Some true)) [] true eq_refl)
    as (out & st & Hrun & Hres).
  exists out. rewrite Hrun. cbn [bind]. cbn [results app] in Hres.
  rewrite Hres. reflexivity.
Qed.

(** [optimize] with [display=False]. *)
Lemma optimize_display_off p q ps qs :
  optimize fit sort series p d q ps ds qs s false =
  match product p q ps qs with
  | [] => Raises [] (ValueError length_mismatch)
  | _ :: _ => Raises [] (UnboundLocalError "display_header")
  end.
Proof.
  unfold optimize. destruct (product p q ps qs) as [|c cs]; reflexivity.
Qed.

(** Rows are recorded for the candidates that fit, and only for them. *)
Lemma in_recorded c a cs :
  In (c, a) (rec_rows cs) <-> In c cs /\ aic c = Some a.
Proof.
  unfold recorded. rewrite in_flat_map. split.
  - intros (c' & Hin & Hrow).
    destruct (aic c') as [a'|] eqn:E; [|contradiction].
    destruct Hrow as [Heq|[]]. inversion Heq; subst. now split.
  - intros [Hin Ha]. exists c. split; [exact Hin|].
    rewrite Ha. now left.
Qed.

Lemma recorded_nil cs :
  rec_rows cs = [] <-> forall c, In c cs -> aic c = None.
Proof.
  split.
  - intros H c Hin. destruct (aic c) as [a|] eqn:E; [|reflexivity].
    assert (Hr : In (c, a) (rec_rows cs)) by (apply in_recorded; now split).
    rewrite H in Hr. contradiction.
  - intros H. destruct (rec_rows cs) as [|[c a] rows] eqn:E; [reflexivity|].
    assert (Hr : In (c, a) (rec_rows cs)) by (rewrite E; now left).
    apply in_recorded in Hr. destruct Hr as [Hin Ha].
    rewrite (H c Hin) in Ha. discriminate.
Qed.

End OptimizeFacts.

(** The head of an ascending list is below every row of the list. *)
Lemma sorted_head_min (r : row) (rows : list row) :
  Sorted aic_le (r :: rows) -> forall r', In r' (r :: rows) -> aic_le r r'.
Proof.
  intros Hs r' Hin.
  apply Sorted_StronglySorted in Hs.
  - inversion Hs as [|? ? _ Hall]; subst.
    destruct Hin as [<-|Hin].
    + unfold aic_le. apply Qle_refl.
    + rewrite Forall_forall in Hall. now apply Hall.
  - intros x y z. unfold aic_le. apply Qle_trans.
Qed.

Section OptimizeTheorems.

Variable fit : Series -> order -> seasonal_order -> option Q.
Variable sort : list row -> list row.
Variables (series : Series) (p : list Z) (d : Z) (q ps : list Z) (ds : Z)
          (qs : list Z) (s : Z).

(** What a successful call of [optimize] went through: the display was on,
    some fit succeeded, and the result heads the sorted table. *)
Lemma optimize_returns_inv display out best :
  optimize fit sort series p d q ps ds qs s display = Returns out best ->
  display = true /\
  exists a rest,
    sort (recorded fit series d ds s (product p q ps qs)) = (best, a) :: rest
    /\ recorded fit series d ds s (product p q ps qs) <> [].
Proof.
  destruct display.
  - destruct (optimize_display_on fit sort series d ds s p q ps qs)
      as [out0 ->].
    destruct (recorded fit series d ds s (product p q ps qs))
      as [|r0 rows] eqn:Erows; [discriminate|].
    destruct (sort (r0 :: rows)) as [|[b a] rest] eqn:Esort; [discriminate|].
    destruct b as [[[p1 q1] ps1] qs1]. intros H. inversion H; subst.
    split; [reflexivity|]. exists a, rest. split; [reflexivity|discriminate].
  - rewrite optimize_display_off.
    destruct (product p q ps qs); discriminate.
Qed.

(** The tuple a successful call returns has the least AIC of the candidates
    that fit. *)
Lemma optimize_returns_minimum display out best :
  sorts_by_aic sort ->
  optimize fit sort series p d q ps ds qs s display = Returns out best ->
  minimum_aic fit series d ds s (product p q ps qs) best.
Proof.
  intros Hsort Hret.
  apply optimize_returns_inv in Hret.
  destruct Hret as (_ & a & rest & Hs & _).
  destruct (Hsort (recorded fit series d ds s (product p q ps qs)))
    as [Hperm Hsorted].
  rewrite Hs in Hperm, Hsorted.
  assert (Hin : In (best, a)
                   (recorded fit series d ds s (product p q ps qs))).
  { eapply Permutation_in; [exact Hperm | now left]. }
  apply in_recorded in Hin. destruct Hin as [Hin Ha].
  split; [exact Hin|]. exists a. split; [exact Ha|].
  intros c a' Hc Ha'.
  assert (Hrow : In (c, a') ((best, a) :: rest)).
  { eapply Permutation_in; [apply Permutation_sym; exact Hperm|].
    apply in_recorded. now split. }
  exact (sorted_head_min _ _ Hsorted _ Hrow).
Qed.

(** C1. Whenever [optimize] returns a tuple, the tuple is a candidate of the
    Cartesian product whose fit succeeded and whose AIC is less than or equal
    to the AIC of every candidate whose fit succeeded; and with the display on
    it does return as soon as one candidate can be fit.  Holds for every sort
    that returns the rows in ascending order of AIC. *)
Theorem optimize_selects_minimum_aic :
  sorts_by_aic sort ->
  (forall display out best,
      optimize fit sort series p d q ps ds qs s display = Returns out best ->
      minimum_aic fit series d ds s (product p q ps qs) best)
  /\
  ((exists c, In c (product p q ps qs) /\
              aic_of fit series d ds s c <> None) ->
   exists out best,
     optimize fit sort series p d q ps ds qs s true = Returns out best).
Proof.
  intros Hsort. split.
  - intros display out best Hret.
    exact (optimize_returns_minimum _ _ _ Hsort Hret).
  - intros (c & Hc & Hfit).
    destruct (optimize_display_on fit sort series d ds s p q ps qs)
      as [out0 ->].
    destruct (recorded fit series d ds s (product p q ps qs))
      as [|r0 rows] eqn:Erows.
    + exfalso. apply Hfit.
      exact (proj1 (recorded_nil fit series d ds s _) Erows c Hc).
    + destruct (Hsort (r0 :: rows)) as [Hperm _].
      destruct (sort (r0 :: rows)) as [|[b a] rest].
      * apply Permutation_nil in Hperm. discriminate.
      * destruct b as [[[p1 q1] ps1] qs1]. eauto.
Qed.

(** C2, as the code has it.  When every candidate fails to fit, [optimize]
    returns no tuple and raises no exception of its own: with the display on
    it ends in the [ValueError] that pandas raises on
    [result_table.columns = ...] for the empty table, after all candidates
    were tried; with the display off it ends as it does for every input. *)
Theorem optimize_all_fits_fail display :
  (forall c, In c (product p q ps qs) ->
             aic_of fit series d ds s c = None) ->
  exists out e,
    optimize fit sort series p d q ps ds qs s display = Raises out e /\
    ~ explicit_failure
        (optimize fit sort series p d q ps ds qs s display) /\
    (display = true -> e = ValueError length_mismatch).
Proof.
  intros Hnone.
  apply (recorded_nil fit series d ds s) in Hnone.
  destruct display.
  - destruct (optimize_display_on fit sort series d ds s p q ps qs)
      as [out0 Hrun].
    rewrite Hnone in Hrun. rewrite Hrun.
    exists out0, (ValueError length_mismatch).
    split; [reflexivity|]. split; [|reflexivity].
    intros (o & k & H). discriminate.
  - rewrite optimize_display_off.
    destruct (product p q ps qs); eexists; eexists;
      (split; [reflexivity|]); (split; [|discriminate]);
      intros (o & k & H); discriminate.
Qed.

(** C9. With [display=False] and a candidate list that is not empty,
    [optimize] raises [UnboundLocalError] for [display_header] before
    anything is printed or fit; and [optimize] returns only when [display]
    is true. *)
Theorem optimize_display_off_unbound :
  (product p q ps qs <> [] ->
   optimize fit sort series p d q ps ds qs s false
     = Raises [] (UnboundLocalError "display_header"))
  /\
  (forall display out best,
     optimize fit sort series p d q ps ds qs s display = Returns out best ->
     display = true).
Proof.
  split.
  - intros Hne. rewrite optimize_display_off.
    destruct (product p q ps qs); [contradiction|reflexivity].
  - intros display out best H.
    exact (proj1 (optimize_returns_inv _ _ _ H)).
Qed.

End OptimizeTheorems.

(** ** The sample sorts meet the contract of [sort_values] *)

Section SortFacts.

Lemma insert_row_perm r rows : Permutation (insert_row r rows) (r :: rows).
Proof.
  induction rows as [|r' rows IH]; cbn [insert_row]; [reflexivity|].
  destruct (Qle_bool (snd r) (snd r')); [reflexivity|].
  rewrite IH. apply perm_swap.
Qed.


Lemma Qle_bool_false a b : Qle_bool a b = false -> (b < a)%Q.
Proof.
  intros H. apply Qnot_le_lt. intros Hle.
  apply Qle_bool_iff in Hle. congruence.
Qed.

Lemma insert_row_hdrel r0 r rows :
  aic_le r0 r -> HdRel aic_le r0 rows -> HdRel aic_le r0 (insert_row r rows).
Proof.
  intros Hr Hh. destruct rows as [|r' rows]; cbn [insert_row].
  - now constructor.
  - destruct (Qle_bool (snd r) (snd r')); constructor;
      [exact Hr | now inversion Hh].
Qed.

Lemma insert_row_sorted r rows :
  Sorted aic_le rows -> Sorted aic_le (insert_row r rows).
Proof.
  induction rows as [|r' rows IH]; intros Hs; cbn [insert_row].
  - repeat constructor.
  - destruct (Qle_bool (snd r) (snd r')) eqn:E.
    + constructor; [exact Hs|]. constructor. now apply Qle_bool_iff.
    + inversion Hs as [|? ? Hs' Hh]; subst.
      constructor; [now apply IH|].
      apply insert_row_hdrel; [|exact Hh].
      apply Qlt_le_weak. now apply Qle_bool_false.
Qed.



Lemma insertion_sort_sorts : sorts_by_aic insertion_sort.
Proof.
  intros rows. unfold insertion_sort.
  induction rows as [|r rows [IHp IHs]]; cbn [fold_right].
  - split; [reflexivity|constructor].
  - split.
    + rewrite insert_row_perm. now constructor.
    + now apply insert_row_sorted.
Qed.




End SortFacts.

(** ** Ties *)







Lemma optimize_selects_minimum_aic_witness :
  sorts_by_aic insertion_sort /\
  minimum_aic fit_sample series_sample 0 0 0
    (product [0; 1; 2; 3] [0; 1] [0] [0]) (2, 0, 0, 0) /\
  exists out best,
    optimize fit_sample insertion_sort series_sample
             [0; 1; 2; 3] 0 [0; 1] [0] 0 [0] 0 true = Returns out best.
Proof.
  destruct (optimize_selects_minimum_aic fit_sample insertion_sort
              series_sample [0; 1; 2; 3] 0 [0; 1] [0] 0 [0] 0
              insertion_sort_sorts) as [Hmin Hret].
  split; [exact insertion_sort_sorts|]. split.
  - eapply (Hmin true). vm_compute. reflexivity.
  - apply Hret. exists (0, 0, 0, 0). split; [now left|discriminate].
Defined.

Lemma optimize_all_fits_fail_witness :
  (forall c, In c (product [0; 1] [0; 1] [0] [0]) ->
             aic_of fit_none series_sample 0 0 0 c = None) /\
  exists out e,
    optimize fit_none insertion_sort series_sample [0; 1] 0 [0; 1] [0] 0 [0]
             0 true = Raises out e /\
    ~ explicit_failure
        (optimize fit_none insertion_sort series_sample [0; 1] 0 [0; 1] [0] 0
                  [0] 0 true) /\
    (true = true -> e = ValueError length_mismatch).
Proof.
  assert (H : forall c, In c (product [0; 1] [0; 1] [0] [0]) ->
                        aic_of fit_none series_sample 0 0 0 c = None).
  { intros [[[p0 q0] ps0] qs0] _. reflexivity. }
  split; [exact H|].
  exact (optimize_all_fits_fail fit_none insertion_sort series_sample
           [0; 1] 0 [0; 1] [0] 0 [0] 0 true H).
Defined.

(** C2, as stated, fails: every fit fails, and what leaves [optimize] is the
    [ValueError] of pandas, not a failure the module signals itself. *)
Lemma optimize_no_viable_model_counterexample :
  (forall c, In c (product [0; 1] [0] [0] [0]) ->
             aic_of fit_none series_sample 0 0 0 c = None) /\
  optimize fit_none insertion_sort series_sample [0; 1] 0 [0] [0] 0 [0] 0 true
    = Raises [PrintHeader 2;
              CallFit (0, 0, 0) (0, 0, 0, 0); CallFit (1, 0, 0) (0, 0, 0, 0)]
             (ValueError length_mismatch) /\
  ~ explicit_failure
      (optimize fit_none insertion_sort series_sample [0; 1] 0 [0] [0] 0 [0]
                0 true).
Proof.
  split; [intros [[[p0 q0] ps0] qs0] _; reflexivity|].
  split; [reflexivity|].
  intros (out & kind & H). discriminate.
Qed.

Lemma optimize_display_off_unbound_witness :
  product [0; 1] [0] [0] [0] <> [] /\
  optimize fit_sample insertion_sort series_sample [0; 1] 0 [0] [0] 0 [0] 0
           false
    = Raises [] (UnboundLocalError "display_header") /\
  true = true.
Proof.
  destruct (optimize_display_off_unbound fit_sample insertion_sort
              series_sample [0; 1] 0 [0] [0] 0 [0] 0) as [Hraise Hret].
  assert (Hne : product [0; 1] [0] [0] [0] <> []) by discriminate.
  split; [exact Hne|]. split; [exact (Hraise Hne)|].
  apply (Hret true
           [PrintHeader 2; CallFit (0, 0, 0) (0, 0, 0, 0);
            PrintBest (0, 0, 0, 0) 2 1 2; CallFit (1, 0, 0) (0, 0, 0, 0);
            PrintOptimized (0, 0, 0) (0, 0, 0, 0)]
           (0, 0, 0, 0)).
  reflexivity.
Defined.

(** ** Order of floats and ranges *)

Lemma flt_fin_true a b : flt (Fin a) (Fin b) = true <-> (a < b)%Q.
Proof.
  cbn [flt]. rewrite Qlt_alt. destruct (a ?= b)%Q; split; congruence.
Qed.

Lemma flt_fin_false a b : flt (Fin a) (Fin b) = false <-> (b <= a)%Q.
Proof.
  cbn [flt]. rewrite Qge_alt.
  destruct (a ?= b)%Q; split; congruence.
Qed.

(** Below a value that is not below the running best. *)
Lemma flt_improve m best best' :
  flt (Fin m) best = true -> flt (Fin m) best' = false ->
  flt best best' = false.
Proof.
  destruct best as [b| | |], best' as [b'| | |]; cbn [flt];
    try reflexivity; try discriminate.
  intros H1 H2.
  change (flt (Fin m) (Fin b) = true) in H1.
  change (flt (Fin m) (Fin b') = false) in H2.
  change (flt (Fin b) (Fin b') = false).
  apply flt_fin_true in H1. apply flt_fin_false in H2.
  apply flt_fin_false. apply Qlt_le_weak. eapply Qle_lt_trans; eassumption.
Qed.

(** Not below the running best, which is not below the final best. *)
Lemma flt_keep m best best' :
  is_nan best = false ->
  flt (Fin m) best = false -> flt best best' = false ->
  flt (Fin m) best' = false.
Proof.
  destruct best as [b| | |], best' as [b'| | |]; cbn [flt is_nan];
    try reflexivity; try discriminate.
  intros _ H1 H2.
  change (flt (Fin m) (Fin b) = false) in H1.
  change (flt (Fin b) (Fin b') = false) in H2.
  change (flt (Fin m) (Fin b') = false).
  apply flt_fin_false in H1, H2.
  apply flt_fin_false. eapply Qle_trans; eassumption.
Qed.

Lemma in_range n k : In k (range n) <-> 0 <= k < n.
Proof.
  unfold range. rewrite in_map_iff. split.
  - intros (j & <- & Hj). apply in_seq in Hj. lia.
  - intros H. exists (Z.to_nat k). split; [lia|]. apply in_seq. lia.
Qed.

Lemma range_succ n : 0 <= n -> range (n + 1) = range n ++ [n].
Proof.
  intros H. unfold range.
  replace (Z.to_nat (n + 1)) with (Z.to_nat n + 1)%nat by lia.
  rewrite seq_app, map_app. cbn [seq map Nat.add].
  now rewrite Z2Nat.id.
Qed.

Lemma seq_split m : forall a l1 k l2,
  map Z.of_nat (seq a m) = l1 ++ k :: l2 ->
  l1 = map Z.of_nat (seq a (length l1)) /\
  k = Z.of_nat (a + length l1) /\ (length l1 < m)%nat.
Proof.
  induction m as [|m IH]; intros a l1 k l2 H.
  - destruct l1; discriminate.
  - cbn [seq map] in H. destruct l1 as [|x l1]; cbn [app] in H.
    + inversion H; subst. cbn [length seq map].
      repeat split; [f_equal; lia | lia].
    + inversion H as [[Hx Hrest]]. apply IH in Hrest.
      destruct Hrest as (Hl1 & Hk & Hlen).
      cbn [length seq map]. repeat split; [now f_equal | lia | lia].
Qed.

(** A range cut at one of its elements: what comes before is a range. *)
Lemma range_split n l1 k l2 :
  range n = l1 ++ k :: l2 -> l1 = range k /\ 0 <= k < n.
Proof.
  unfold range. intros H. apply seq_split in H.
  destruct H as (Hl1 & Hk & Hlen). cbn [Nat.add] in Hk. subst k.
  rewrite Nat2Z.id. split; [exact Hl1 | lia].
Qed.

(** ** The stationarity search *)

Section SeasonalityFacts.

Variable adfuller : Series -> result Q.
Variable acf : Series -> result (Q * list Q).
Variable series : Series.

(** The first loop, when it ends: either it broke at a lag [d] whose p-value
    is below the threshold, after lags which are not, or it ran through all
    lags and left [d_best] unbound. *)
Lemma d_loop_inv t : forall lags out out' pbest dbest,
  d_loop adfuller series lags (Fin t) None out = Returns out' (pbest, dbest) ->
  match dbest with
  | Some d =>
    exists before after pv,
      lags = before ++ d :: after /\
      adfuller (lagged series d) = Ok pv /\ (pv < t)%Q /\
      no_improvement adfuller series t before /\
      out' = out ++ adfuller_calls series (before ++ [d])
  | None =>
    no_improvement adfuller series t lags /\
    out' = out ++ adfuller_calls series lags
  end.
Proof.
  induction lags as [|k lags IH]; intros out out' pbest dbest H.
  - cbn [d_loop] in H. inversion H; subst.
    split; [intros ? []|]. cbn. now rewrite app_nil_r.
  - cbn [d_loop] in H. fold (lagged series k) in H.
    destruct (adfuller (lagged series k)) as [pv|e] eqn:Eadf;
      cbn [call bind] in H; [|discriminate].
    destruct (fgt (Fin t) (Fin pv)) eqn:Egt.
    + inversion H; subst. unfold fgt in Egt. apply flt_fin_true in Egt.
      exists [], lags, pv. cbn [app]. repeat split; try assumption.
      intros ? [].
    + unfold fgt in Egt. apply flt_fin_false in Egt.
      apply IH in H. destruct dbest as [d|].
      * destruct H as (before & after & pv' & -> & Hd & Hlt & Hno & ->).
        exists (k :: before), after, pv'. repeat split; try assumption.
        -- intros k' [<-|Hk']; [now exists pv | now apply Hno].
        -- rewrite <- app_assoc. reflexivity.
      * destruct H as [Hno ->]. split.
        -- intros k' [<-|Hk']; [now exists pv | now apply Hno].
        -- rewrite <- app_assoc. reflexivity.
Qed.

(** Without an improvement the first loop runs through all lags. *)
Lemma d_loop_no_improvement t : forall lags out,
  no_improvement adfuller series t lags ->
  d_loop adfuller series lags (Fin t) None out
    = Returns (out ++ adfuller_calls series lags) (Fin t, None).
Proof.
  induction lags as [|k lags IH]; intros out Hno.
  - cbn. now rewrite app_nil_r.
  - cbn [d_loop]. fold (lagged series k).
    destruct (Hno k (or_introl eq_refl)) as (pv & -> & Hle).
    cbn [call bind]. unfold fgt.
    rewrite (proj2 (flt_fin_false pv t) Hle).
    rewrite IH by (intros k' Hk'; apply Hno; now right).
    rewrite <- app_assoc. reflexivity.
Qed.


(** The second loop, when it ends: it called [acf] for every lag, no lag has
    a mean autocorrelation below the final best, and the lag it selected
    attains the final best unless nothing improved. *)
Lemma s_loop_inv d : forall lags best sbest out out' best' sbest',
  is_nan best = false ->
  s_loop acf series d lags best sbest out = Returns out' (best', sbest') ->
  out' = out ++ acf_calls series d lags /\
  (forall k, In k lags ->
     exists m, mean_acf acf series (d + k) = Some m /\
               flt (Fin m) best' = false) /\
  flt best best' = false /\
  ((best' = best /\ sbest' = sbest) \/
   (In sbest' lags /\
    exists m, mean_acf acf series (d + sbest') = Some m /\ best' = Fin m)).
Proof.
  induction lags as [|k lags IH];
    intros best sbest out out' best' sbest' Hnan H.
  - cbn [s_loop] in H. inversion H; subst. cbn. rewrite app_nil_r.
    repeat split; [intros ? [] | | now left].
    destruct best'; cbn [flt is_nan] in *; try reflexivity; try discriminate.
    change (flt (Fin q) (Fin q) = false).
    apply flt_fin_false, Qle_refl.
  - cbn [s_loop] in H. fold (lagged series (d + k)) in H.
    unfold mean_acf.
    destruct (acf (lagged series (d + k))) as [r|e] eqn:Eacf;
      cbn [call bind] in H; [|discriminate].
    unfold fgt in H.
    destruct (flt (Fin (mean (fst r) (snd r))) best) eqn:Elt.
    + apply IH in H; [|reflexivity].
      destruct H as (-> & Hall & Hle & Hsel).
      split; [cbn; rewrite <- app_assoc; reflexivity|].
      split; [|split].
      * intros k' [<-|Hk'].
        -- rewrite Eacf. eexists. split; [reflexivity|exact Hle].
        -- now apply Hall.
      * eapply flt_improve; eassumption.
      * right. destruct Hsel as [[-> ->]|(Hin & m & Hm & ->)].
        -- split; [now left|]. rewrite Eacf. eauto.
        -- split; [now right|]. eauto.
    + apply IH in H; [|exact Hnan].
      destruct H as (-> & Hall & Hle & Hsel).
      split; [cbn; rewrite <- app_assoc; reflexivity|].
      split; [|split].
      * intros k' [<-|Hk'].
        -- rewrite Eacf. eexists. split; [reflexivity|].
           eapply flt_keep; eassumption.
        -- now apply Hall.
      * exact Hle.
      * destruct Hsel as [[-> ->]|(Hin & m & Hm & ->)].
        -- now left.
        -- right. split; [now right|]. eauto.
Qed.


End SeasonalityFacts.

Section SeasonalityTheorems.

Variable adfuller : Series -> result Q.
Variable acf : Series -> result (Q * list Q).
Variable series : Series.
Variable par_range : Z.

(** Without [optimize] the locals [d], [ds], [s] are never assigned. *)
Lemma seasonality_no_search graph :
  seasonality adfuller acf series par_range false graph
    = Raises [] (UnboundLocalError "d").
Proof. reflexivity. Qed.

(** The steps of a call of [seasonality] that returns. *)
Lemma seasonality_inv optimize graph out d ds s :
  seasonality adfuller acf series par_range optimize graph
    = Returns out (d, ds, s) ->
  exists out1 pbest out2 best pv,
    optimize = true /\
    d_loop adfuller series (range par_range) (Fin p_value_threshold) None []
      = Returns out1 (pbest, Some d) /\
    s_loop acf series d (range par_range) PInf 0 (out1 ++ [PrintD d])
      = Returns out2 (best, s) /\
    ds = (if s >? 0 then 1 else 0) /\
    adfuller (lagged series (d + s)) = Ok pv /\
    out = ((out2 ++ [PrintS s]) ++ [CallAdfuller (lagged series (d + s))])
            ++ (if graph then [Plot] else []).
Proof.
  destruct optimize; [|rewrite seasonality_no_search; discriminate].
  unfold seasonality.
  destruct (d_loop adfuller series (range par_range) (Fin p_value_threshold)
              None []) as [out1 [pbest [d0|]]|out1 e] eqn:Ed;
    cbn [bind snd]; try discriminate.
  destruct (s_loop acf series d0 (range par_range) PInf 0
              (out1 ++ [PrintD d0])) as [out2 [best s0]|out2 e] eqn:Es;
    cbn [bind snd]; try discriminate.
  fold (lagged series (d0 + s0)).
  destruct (adfuller (lagged series (d0 + s0))) as [pv|e] eqn:Ea;
    cbn [call bind]; try discriminate.
  intros H. inversion H; subst.
  exists out1, pbest, out2, best, pv.
  repeat split; try assumption.
  destruct graph; [reflexivity|now rewrite app_nil_r].
Qed.


(** The seasonal length [seasonality] returns is a lag of the range. *)
Lemma s_loop_selected d out out' best s :
  0 < par_range ->
  s_loop acf series d (range par_range) PInf 0 out = Returns out' (best, s) ->
  In s (range par_range) /\
  exists m, mean_acf acf series (d + s) = Some m /\ best = Fin m.
Proof.
  intros Hpos H. apply s_loop_inv in H; [|reflexivity].
  destruct H as (_ & Hall & _ & [[-> ->]|Hsel]); [|exact Hsel].
  exfalso. destruct (Hall 0) as (m & _ & Hm); [apply in_range; lia|].
  discriminate.
Qed.

End SeasonalityTheorems.



(** C8. The triple a call of [seasonality] returns satisfies [d >= 0],
    [s >= 0] and [ds] is 0 or 1. *)
Theorem seasonality_result_ranges
    adfuller acf series par_range optimize graph out d ds s :
  seasonality adfuller acf series par_range optimize graph
    = Returns out (d, ds, s) ->
  0 <= d /\ 0 <= s /\ (ds = 0 \/ ds = 1).
Proof.
  intros H. apply seasonality_inv in H.
  destruct H as (out1 & pbest & out2 & best & pv & _ & Hd & Hs & Hds & _).
  apply d_loop_inv in Hd.
  destruct Hd as (before & after & pvd & Hrange & _).
  apply range_split in Hrange. destruct Hrange as [_ Hbound].
  apply s_loop_selected in Hs; [|lia].
  destruct Hs as [Hin _]. apply in_range in Hin.
  split; [lia|]. split; [lia|].
  rewrite Hds. destruct (s >? 0); [now right|now left].
Qed.

(** C10. When every lag of the range has a p-value of at least 0.0001,
    [seasonality] tests all of them and then raises [UnboundLocalError] for
    [d_best]; a call that returns has met a lag of the range whose p-value
    is strictly below 0.0001. *)
Theorem seasonality_unbound_d_best adfuller acf series par_range graph :
  (no_improvement adfuller series p_value_threshold (range par_range) ->
   seasonality adfuller acf series par_range true graph
     = Raises (adfuller_calls series (range par_range))
              (UnboundLocalError "d_best"))
  /\
  (forall optimize out d ds s,
     seasonality adfuller acf series par_range optimize graph
       = Returns out (d, ds, s) ->
     exists k pv,
       0 <= k < par_range /\ adfuller (lagged series k) = Ok pv /\
       (pv < p_value_threshold)%Q).
Proof.
  split.
  - intros Hno. unfold seasonality.
    rewrite (d_loop_no_improvement adfuller series p_value_threshold
               (range par_range) [] Hno).
    reflexivity.
  - intros optimize out d ds s H. apply seasonality_inv in H.
    destruct H as (out1 & pbest & out2 & best & pv & _ & Hd & _).
    apply d_loop_inv in Hd.
    destruct Hd as (before & after & pvd & Hrange & Hadf & Hlt & _).
    apply range_split in Hrange. destruct Hrange as [_ Hbound].
    eauto.
Qed.

(** ** The error measure *)

Section ErrorFacts.

Lemma feq_refl x : feq x x.
Proof. destruct x; cbn; trivial. apply Qeq_refl. Qed.

Lemma feq_trans x y z : feq x y -> feq y z -> feq x z.
Proof.
  destruct x, y, z; cbn; try contradiction; trivial. apply Qeq_trans.
Qed.

Lemma fadd_feq x x' y : feq x x' -> feq (fadd x y) (fadd x' y).
Proof.
  destruct x, x', y; cbn; try contradiction; trivial.
  intros H. now rewrite H.
Qed.

Lemma fmul_100_nan x : is_nan (fmul x (Fin 100)) = is_nan x.
Proof. destruct x; reflexivity. Qed.

Lemma fmul_100_distr x y :
  feq (fadd (fmul x (Fin 100)) (fmul y (Fin 100)))
      (fmul (fadd x y) (Fin 100)).
Proof.
  destruct x, y; cbn; trivial. ring.
Qed.

Lemma fold_fadd_scale : forall l acc acc',
  feq acc' (fmul acc (Fin 100)) ->
  feq (fold_left fadd (map (fun x => fmul x (Fin 100)) l) acc')
      (fmul (fold_left fadd l acc) (Fin 100)).
Proof.
  induction l as [|x l IH]; intros acc acc' H; cbn [map fold_left].
  - exact H.
  - apply IH. eapply feq_trans; [apply fadd_feq; exact H|].
    apply fmul_100_distr.
Qed.

Lemma count_positive k :
  Qeq_bool (inject_Z (Z.of_nat (S k))) 0 = false /\
  (inject_Z (Z.of_nat (S k)) ?= 0)%Q = Gt.
Proof. split; reflexivity. Qed.

Lemma fdiv_count_scale x x' k :
  feq x' (fmul x (Fin 100)) ->
  feq (fdiv x' (of_int (Z.of_nat (S k))))
      (fmul (fdiv x (of_int (Z.of_nat (S k)))) (Fin 100)).
Proof.
  unfold of_int. destruct (count_positive k) as [Hz Hg].
  destruct x as [a| | |], x' as [a'| | |]; cbn [fmul feq fdiv];
    rewrite ?Hz, ?Hg; cbn [fmul feq fdiv]; try contradiction; trivial.
  all: try (vm_compute; tauto).
  intros H. rewrite H. field.
  intros Hq. apply Qeq_bool_iff in Hq. congruence.
Qed.

Lemma filter_map_scale l :
  filter (fun v => negb (is_nan v)) (map (fun x => fmul x (Fin 100)) l) =
  map (fun x => fmul x (Fin 100)) (filter (fun v => negb (is_nan v)) l).
Proof.
  induction l as [|x l IH]; cbn [map filter]; [reflexivity|].
  rewrite fmul_100_nan. destruct (is_nan x); cbn [negb map]; now rewrite IH.
Qed.

(** The mean of the points times 100 is 100 times the mean of the points. *)
Lemma series_mean_scale l :
  feq (series_mean (map (fun x => fmul x (Fin 100)) l))
      (fmul (series_mean l) (Fin 100)).
Proof.
  unfold series_mean. rewrite filter_map_scale.
  destruct (filter (fun v => negb (is_nan v)) l) as [|x valid];
    cbn [map]; [exact I|].
  cbn [length]. rewrite length_map.
  apply fdiv_count_scale.
  change (fold_left fadd (fmul x (Fin 100)
                           :: map (fun x0 => fmul x0 (Fin 100)) valid) (Fin 0))
    with (fold_left fadd (map (fun x0 => fmul x0 (Fin 100)) (x :: valid))
            (Fin 0)).
  apply fold_fadd_scale. cbn. ring.
Qed.

Lemma align_self op : forall x, align op x x = map (fun v => op v v) x.
Proof.
  induction x as [|a x IH]; cbn [align map]; [reflexivity|]. now rewrite IH.
Qed.

Lemma nth_error_align op : forall x y i a b,
  nth_error x i = Some a -> nth_error y i = Some b ->
  nth_error (align op x y) i = Some (op a b).
Proof.
  induction x as [|a0 x IH]; intros y i a b Hx Hy.
  - destruct i; discriminate.
  - destruct y as [|b0 y]; [destruct i; discriminate|].
    destruct i as [|i]; cbn [nth_error align] in *.
    + congruence.
    + now apply IH.
Qed.

(** A point where actual and predicted are the same value: zero error when
    the value is finite and not zero, [nan] otherwise. *)
Lemma percent_error_same x :
  (finite_nonzero x ->
   exists e, percent_error (fdiv x x) = Fin e /\ (e == 0)%Q) /\
  (~ finite_nonzero x -> percent_error (fdiv x x) = NaN).
Proof.
  destruct x as [a| | |]; cbn [finite_nonzero]; split; try tauto;
    try reflexivity.
  - intros Ha. unfold percent_error. cbn [fdiv].
    destruct (Qeq_bool a 0) eqn:E; [apply Qeq_bool_iff in E; tauto|].
    cbn [fsub fneg fadd fabs fmul]. eexists. split; [reflexivity|].
    assert (H0 : (a / a + - (1) == 0)%Q) by (field; exact Ha).
    rewrite H0. reflexivity.
  - intros Ha. unfold percent_error. cbn [fdiv].
    destruct (Qeq_bool a 0) eqn:E.
    + apply Qeq_bool_iff in E. unfold signed_inf.
      rewrite (proj1 (Qeq_alt a 0) E). reflexivity.
    + exfalso. apply Ha. intros H0. apply Qeq_bool_iff in H0. congruence.
Qed.

Lemma fold_fadd_zero : forall l acc,
  (forall e, In e l -> exists q, e = Fin q /\ (q == 0)%Q) ->
  (acc == 0)%Q ->
  exists q, fold_left fadd l (Fin acc) = Fin q /\ (q == 0)%Q.
Proof.
  induction l as [|e l IH]; intros acc Hl Hacc; cbn [fold_left].
  - eauto.
  - destruct (Hl e (or_introl eq_refl)) as (q & -> & Hq).
    cbn [fadd]. apply IH.
    + intros e' He'. apply Hl. now right.
    + rewrite Hacc, Hq. reflexivity.
Qed.

(** The mean of points that are zero or [nan], one of them not [nan]. *)
Lemma series_mean_zero l :
  (forall e, In e l -> e = NaN \/ exists q, e = Fin q /\ (q == 0)%Q) ->
  (exists e, In e l /\ is_nan e = false) ->
  feq (series_mean l) (Fin 0).
Proof.
  intros Hall (e0 & He0 & Hn0). unfold series_mean.
  assert (Hvalid : forall e, In e (filter (fun v => negb (is_nan v)) l) ->
                             exists q, e = Fin q /\ (q == 0)%Q).
  { intros e He. apply filter_In in He. destruct He as [He Hn].
    destruct (Hall e He) as [->|H]; [discriminate|exact H]. }
  assert (Hin0 : In e0 (filter (fun v => negb (is_nan v)) l)).
  { apply filter_In. split; [exact He0|]. now rewrite Hn0. }
  destruct (filter (fun v => negb (is_nan v)) l) as [|x valid];
    [contradiction|].
  destruct (fold_fadd_zero (x :: valid) 0 Hvalid (Qeq_refl 0))
    as (q & -> & Hq).
  cbn [length]. unfold of_int. cbn [fdiv].
  rewrite (proj1 (count_positive (length valid))).
  cbn [feq]. rewrite Hq. apply Qmult_0_l.
Qed.

(** A scored point is never [-inf]. *)
Lemma percent_error_not_ninf v : percent_error v <> NInf.
Proof. destruct v; discriminate. Qed.

Lemma fold_fadd_pinf_acc : forall l,
  (forall e, In e l -> e <> NInf /\ is_nan e = false) ->
  fold_left fadd l PInf = PInf.
Proof.
  induction l as [|e l IH]; intros Hl; cbn [fold_left]; [reflexivity|].
  destruct (Hl e (or_introl eq_refl)) as [Hne Hnan].
  destruct e; cbn [fadd]; try discriminate; try congruence;
    apply IH; intros e' He'; apply Hl; now right.
Qed.

Lemma fold_fadd_pinf : forall l acc,
  (forall e, In e l -> e <> NInf /\ is_nan e = false) ->
  In PInf l ->
  fold_left fadd l (Fin acc) = PInf.
Proof.
  induction l as [|e l IH]; intros acc Hl Hin; [contradiction|].
  cbn [fold_left].
  assert (Hl' : forall e', In e' l -> e' <> NInf /\ is_nan e' = false)
    by (intros e' He'; apply Hl; now right).
  destruct Hin as [->|Hin].
  - cbn [fadd]. now apply fold_fadd_pinf_acc.
  - destruct (Hl e (or_introl eq_refl)) as [Hne Hnan].
    destruct e; cbn [fadd]; try discriminate; try congruence.
    + now apply IH.
    + now apply fold_fadd_pinf_acc.
Qed.

(** The mean of points none of which is [-inf], one of them [inf]. *)
Lemma series_mean_pinf l :
  (forall e, In e l -> e <> NInf) -> In PInf l -> series_mean l = PInf.
Proof.
  intros Hall Hin. unfold series_mean.
  assert (Hvalid : forall e, In e (filter (fun v => negb (is_nan v)) l) ->
                             e <> NInf /\ is_nan e = false).
  { intros e He. apply filter_In in He. destruct He as [He Hn].
    split; [now apply Hall|]. now destruct (is_nan e). }
  assert (Hin' : In PInf (filter (fun v => negb (is_nan v)) l)).
  { apply filter_In. now split. }
  destruct (filter (fun v => negb (is_nan v)) l) as [|x valid] eqn:E;
    [contradiction|].
  rewrite (fold_fadd_pinf (x :: valid) 0 Hvalid Hin').
  cbn [length]. unfold of_int. cbn [fdiv].
  now rewrite (proj2 (count_positive (length valid))).
Qed.

(** A zero prediction under a finite actual value that is not zero. *)
Lemma percent_error_div_zero a z :
  (z == 0)%Q -> ~ (a == 0)%Q -> percent_error (fdiv (Fin a) (Fin z)) = PInf.
Proof.
  intros Hz Ha. unfold percent_error. cbn [fdiv].
  rewrite (proj2 (Qeq_bool_iff z 0) Hz). unfold signed_inf.
  destruct (Qcompare_spec a 0) as [H|H|H]; [contradiction| |]; reflexivity.
Qed.

End ErrorFacts.

(** C7, as the code has it.  For all inputs [error] returns the mean of
    [|actual / predicted - 1|] over the points after the first ten, times
    100.  When predicted equals actual on these points and one of the values
    is finite and not zero, the result is zero. *)
Theorem error_is_mape data predicted_mean graph :
  (exists v,
     error data predicted_mean graph
       = Returns (if graph then [Plot] else []) v /\
     feq v (mape_spec data predicted_mean))
  /\
  (slice_from 10 predicted_mean = slice_from 10 data ->
   (exists x, In x (slice_from 10 data) /\ finite_nonzero x) ->
   exists v,
     error data predicted_mean graph
       = Returns (if graph then [Plot] else []) v /\
     feq v (Fin 0)).
Proof.
  split.
  - eexists. split; [reflexivity|].
    unfold mape_spec.
    change percent_error
      with (fun v => fmul (fabs (fsub v (Fin 1))) (Fin 100)).
    rewrite <- (map_map (fun v => fabs (fsub v (Fin 1)))
                        (fun x => fmul x (Fin 100))).
    apply series_mean_scale.
  - intros Heq (x & Hx & Hfin).
    eexists. split; [reflexivity|].
    rewrite Heq, align_self, map_map.
    apply series_mean_zero.
    + intros e He. apply in_map_iff in He. destruct He as (y & <- & Hy).
      destruct (percent_error_same y) as [Hnz Hz].
      destruct y as [a| | |];
        try (left; apply Hz; cbn [finite_nonzero]; tauto).
      destruct (Qeq_bool a 0) eqn:E.
      * left. apply Hz. cbn [finite_nonzero].
        apply Qeq_bool_iff in E. tauto.
      * right. apply Hnz. cbn [finite_nonzero]. intros H0.
        apply Qeq_bool_iff in H0. congruence.
    + destruct (proj1 (percent_error_same x) Hfin) as (e & He & _).
      exists (Fin e). split; [|reflexivity].
      apply in_map_iff. exists x. split; [exact He|exact Hx].
Qed.

(** C6, as the code has it.  [error] never raises; where a predicted value
    of the scored window is zero and the actual value there is finite and
    not zero, it returns [inf]. *)
Theorem error_zero_prediction_returns data predicted_mean graph :
  ~ raises (error data predicted_mean graph) /\
  (forall i a z,
     nth_error (slice_from 10 data) i = Some (Fin a) ->
     nth_error (slice_from 10 predicted_mean) i = Some (Fin z) ->
     (z == 0)%Q -> ~ (a == 0)%Q ->
     error data predicted_mean graph
       = Returns (if graph then [Plot] else []) PInf).
Proof.
  split.
  - intros (out & e & H). discriminate.
  - intros i a z Ha Hz Hz0 Ha0. unfold error. f_equal.
    apply series_mean_pinf.
    + intros e He. apply in_map_iff in He. destruct He as (y & <- & _).
      apply percent_error_not_ninf.
    + apply in_map_iff. exists (fdiv (Fin a) (Fin z)).
      split; [now apply percent_error_div_zero|].
      eapply nth_error_In. apply nth_error_align; eassumption.
Qed.

(** ** The theorems at concrete inputs *)



Lemma seasonality_result_ranges_witness :
  exists out,
    seasonality adfuller_sample acf_sample series_sample 5 true false
      = Returns out (3, 1, 1) /\
    0 <= 3 /\ 0 <= 1 /\ (1 = 0 \/ 1 = 1).
Proof.
  eexists. split; [vm_compute; reflexivity|].
  exact (seasonality_result_ranges
           adfuller_sample acf_sample series_sample 5 true false _ 3 1 1
           eq_refl).
Defined.

Lemma seasonality_unbound_d_best_witness :
  no_improvement adfuller_half series_sample p_value_threshold (range 5) /\
  seasonality adfuller_half acf_sample series_sample 5 true false
    = Raises (adfuller_calls series_sample (range 5))
             (UnboundLocalError "d_best") /\
  exists k pv,
    0 <= k < 5 /\ adfuller_sample (lagged series_sample k) = Ok pv /\
    (pv < p_value_threshold)%Q.
Proof.
  assert (Hno : no_improvement adfuller_half series_sample p_value_threshold
                               (range 5)).
  { intros k _. exists (1 # 2)%Q. split; [reflexivity|discriminate]. }
  split; [exact Hno|]. split.
  - exact (proj1 (seasonality_unbound_d_best
                    adfuller_half acf_sample series_sample 5 false) Hno).
  - exact (proj2 (seasonality_unbound_d_best
                    adfuller_sample acf_sample series_sample 5 false)
                 true _ 3 1 1 eq_refl).
Defined.

(** C6, as stated, fails: a predicted value of the scored window is zero,
    and [error] returns [inf] instead of reporting a failure. *)
Lemma error_zero_prediction_counterexample :
  (exists z, In z (slice_from 10 predicted_zero) /\ is_zero z) /\
  error actual_sample predicted_zero false = Returns [] PInf /\
  ~ raises (error actual_sample predicted_zero false).
Proof.
  split; [|split].
  - exists (of_int 0). split; [now left|reflexivity].
  - reflexivity.
  - intros (out & e & H). discriminate.
Qed.

Lemma error_zero_prediction_returns_witness :
  nth_error (slice_from 10 actual_sample) 0 = Some (Fin 5) /\
  nth_error (slice_from 10 predicted_zero) 0 = Some (Fin 0) /\
  (0 == 0)%Q /\ ~ (5 == 0)%Q /\
  error actual_sample predicted_zero false = Returns [] PInf.
Proof.
  assert (Ha : nth_error (slice_from 10 actual_sample) 0 = Some (Fin 5))
    by reflexivity.
  assert (Hz : nth_error (slice_from 10 predicted_zero) 0 = Some (Fin 0))
    by reflexivity.
  assert (Hz0 : (0 == 0)%Q) by reflexivity.
  assert (Ha0 : ~ (5 == 0)%Q) by discriminate.
  repeat (split; [assumption|]).
  exact (proj2 (error_zero_prediction_returns actual_sample predicted_zero
                  false) 0%nat 5%Q 0%Q Ha Hz Hz0 Ha0).
Defined.

(** C7, as stated, fails: predicted equals actual on every scored point, and
    the result is [nan], both when no point is left after the first ten and
    when the scored values are zero. *)
Lemma error_equal_series_counterexample :
  (slice_from 10 series_short = slice_from 10 series_short /\
   error series_short series_short false = Returns [] NaN) /\
  (slice_from 10 flat_zero = slice_from 10 flat_zero /\
   error flat_zero flat_zero false = Returns [] NaN) /\
  ~ feq NaN (Fin 0).
Proof.
  repeat split. intros [].
Qed.

Lemma error_is_mape_witness :
  slice_from 10 actual_sample = slice_from 10 actual_sample /\
  (exists x, In x (slice_from 10 actual_sample) /\ finite_nonzero x) /\
  exists v,
    error actual_sample actual_sample false = Returns [] v /\ feq v (Fin 0).
Proof.
  assert (Hx : exists x, In x (slice_from 10 actual_sample) /\
                         finite_nonzero x).
  { exists (of_int 5). split; [now left|discriminate]. }
  split; [reflexivity|]. split; [exact Hx|].
  exact (proj2 (error_is_mape actual_sample actual_sample false)
               eq_refl Hx).
Defined.

(** * Further properties *)

Import Observe MoreSamples.

(** ** The grid search: candidates, fits and progress lines *)

Lemma in_product p q ps qs a b c e :
  In (a, b, c, e) (product p q ps qs) <->
  In a p /\ In b q /\ In c ps /\ In e qs.
Proof.
  unfold product. rewrite in_flat_map. split.
  - intros (a' & Ha & H). apply in_flat_map in H.
    destruct H as (b' & Hb & H). apply in_flat_map in H.
    destruct H as (c' & Hc & H). apply in_map_iff in H.
    destruct H as (e' & Heq & He). inversion Heq; subst. tauto.
  - intros (Ha & Hb & Hc & He). exists a. split; [exact Ha|].
    apply in_flat_map. exists b. split; [exact Hb|].
    apply in_flat_map. exists c. split; [exact Hc|].
    apply in_map_iff. exists e. now split.
Qed.

Lemma product_nil p q ps qs :
  p = [] \/ q = [] \/ ps = [] \/ qs = [] -> product p q ps qs = [].
Proof.
  intros H. destruct (product p q ps qs) as [|[[[a b] c] e] rest] eqn:E;
    [reflexivity|].
  assert (Hin : In (a, b, c, e) (product p q ps qs)) by (rewrite E; now left).
  apply in_product in Hin. destruct Hin as (Ha & Hb & Hc & He).
  destruct H as [ -> | [ -> | [ -> | -> ] ] ]; contradiction.
Qed.

(** X1. The tuple [optimize] returns is made of one value of each candidate
    range, in the order [(p, q, P, Q)]. *)
Theorem optimize_result_in_ranges
    fit sort series p d q ps ds qs s display out a b c e :
  sorts_by_aic sort ->
  optimize fit sort series p d q ps ds qs s display
    = Returns out (a, b, c, e) ->
  In a p /\ In b q /\ In c ps /\ In e qs.
Proof.
  intros Hsort Hret. apply in_product.
  exact (proj1 (optimize_returns_minimum _ _ _ _ _ _ _ _ _ _ _ _ _
                  Hsort Hret)).
Qed.

(** X2. When one of the four candidate ranges is empty, [optimize] tries no
    fit and prints nothing: it ends at once in the [ValueError] of the empty
    result table, with the display on or off. *)
Theorem optimize_empty_range fit sort series p d q ps ds qs s display :
  p = [] \/ q = [] \/ ps = [] \/ qs = [] ->
  optimize fit sort series p d q ps ds qs s display
    = Raises [] (ValueError length_mismatch).
Proof.
  intros H. unfold optimize. rewrite (product_nil _ _ _ _ H).
  destruct display; reflexivity.
Qed.

Section ProgressFacts.

Variable fit : Series -> order -> seasonal_order -> option Q.
Variables (series : Series) (d ds s : Z).

Local Abbreviation aic := (aic_of fit series d ds s).
Local Abbreviation lines := (improvements fit series d ds s).

Lemma flt_fin_trans a b best :
  flt (Fin a) (Fin b) = true -> flt (Fin b) best = true ->
  flt (Fin a) best = true.
Proof.
  destruct best as [c| | |]; try discriminate; try reflexivity.
  rewrite !flt_fin_true. apply Qlt_trans.
Qed.

(** Below the running best, which the other value is not. *)
Lemma flt_between a b best :
  flt (Fin a) best = true -> flt (Fin b) best = false -> (a < b)%Q.
Proof.
  destruct best as [c| | |]; try discriminate.
  rewrite flt_fin_true, flt_fin_false. intros H1 H2.
  eapply Qlt_le_trans; eassumption.
Qed.

Lemma improvements_in : forall cs best i0 c a i,
  In (c, a, i) (lines best i0 cs) ->
  aic c = Some a /\ flt (Fin a) best = true /\ i0 < i /\
  nth_error cs (Z.to_nat (i - i0 - 1)) = Some c.
Proof.
  induction cs as [|c0 cs IH]; intros best i0 c a i Hin; [contradiction|].
  cbn [improvements] in Hin.
  assert (Hshift : forall j, i0 + 1 < j ->
            nth_error (c0 :: cs) (Z.to_nat (j - i0 - 1))
            = nth_error cs (Z.to_nat (j - (i0 + 1) - 1))).
  { intros j Hj.
    replace (Z.to_nat (j - i0 - 1))
      with (S (Z.to_nat (j - (i0 + 1) - 1))) by lia.
    reflexivity. }
  destruct (aic c0) as [a0|] eqn:E0.
  - destruct (flt (Fin a0) best) eqn:Elt.
    + destruct Hin as [Heq|Hin].
      * inversion Heq; subst. repeat split; try assumption; [lia|].
        replace (i0 + 1 - i0 - 1) with 0 by lia. reflexivity.
      * apply IH in Hin. destruct Hin as (Ha & Hlt & Hi & Hn).
        repeat split; [exact Ha | | lia | now rewrite Hshift by lia].
        eapply flt_fin_trans; eassumption.
    + apply IH in Hin. destruct Hin as (Ha & Hlt & Hi & Hn).
      repeat split; [exact Ha | exact Hlt | lia | now rewrite Hshift by lia].
  - apply IH in Hin. destruct Hin as (Ha & Hlt & Hi & Hn).
    repeat split; [exact Ha | exact Hlt | lia | now rewrite Hshift by lia].
Qed.

Lemma improvements_decreasing : forall cs best i0,
  StronglySorted (fun x y => (line_aic y < line_aic x)%Q) (lines best i0 cs).
Proof.
  induction cs as [|c0 cs IH]; intros best i0; cbn [improvements];
    [constructor|].
  destruct (aic c0) as [a0|]; [|apply IH].
  destruct (flt (Fin a0) best); [|apply IH].
  constructor; [apply IH|].
  apply Forall_forall. intros [[c a] i] Hin.
  apply improvements_in in Hin. destruct Hin as (_ & Hlt & _).
  apply flt_fin_true in Hlt. exact Hlt.
Qed.

Lemma improvements_nil : forall cs best i0,
  lines best i0 cs = [] <->
  (forall c a, In c cs -> aic c = Some a -> flt (Fin a) best = false).
Proof.
  induction cs as [|c0 cs IH]; intros best i0; cbn [improvements].
  - split; [intros _ ? ? []|reflexivity].
  - destruct (aic c0) as [a0|] eqn:E0.
    + destruct (flt (Fin a0) best) eqn:Elt.
      * split; [discriminate|]. intros H.
        rewrite (H c0 a0 (or_introl eq_refl) E0) in Elt. discriminate.
      * rewrite IH. split.
        -- intros H c a [<-|Hc] Ha; [congruence | now apply (H c)].
        -- intros H c a Hc. apply H. now right.
    + rewrite IH. split.
      * intros H c a [<-|Hc] Ha; [congruence | now apply (H c)].
      * intros H c a Hc. apply H. now right.
Qed.

(** The last progress line names the first candidate of least AIC. *)
Lemma improvements_last : forall cs best i0 front c a i,
  lines best i0 cs = front ++ [(c, a, i)] ->
  exists before after,
    cs = before ++ c :: after /\ aic c = Some a /\
    (forall c' a', In c' before -> aic c' = Some a' -> (a < a')%Q) /\
    (forall c' a', In c' after -> aic c' = Some a' -> (a <= a')%Q).
Proof.
  induction cs as [|c0 cs IH]; intros best i0 front c a i H.
  - destruct front; discriminate.
  - assert (Hlast : In (c, a, i) (lines best i0 (c0 :: cs))).
    { rewrite H. apply in_or_app. right. now left. }
    apply improvements_in in Hlast. destruct Hlast as (Ha & Hbest & _).
    cbn [improvements] in H.
    assert (Hskip : flt (Fin a) best = true ->
              (forall a0, aic c0 = Some a0 -> (a < a0)%Q) ->
              lines best (i0 + 1) cs = front ++ [(c, a, i)] ->
              exists before after,
                c0 :: cs = before ++ c :: after /\ aic c = Some a /\
                (forall c' a', In c' before -> aic c' = Some a' ->
                               (a < a')%Q) /\
                (forall c' a', In c' after -> aic c' = Some a' ->
                               (a <= a')%Q)).
    { intros _ Hc0 Hrest.
      destruct (IH _ _ _ _ _ _ Hrest) as (before & after & -> & _ & Hb & Haf).
      exists (c0 :: before), after. repeat split; try assumption.
      intros c' a' [<-|Hc'] Ha'; [now apply Hc0 | now apply (Hb c')]. }
    destruct (aic c0) as [a0|] eqn:E0.
    + destruct (flt (Fin a0) best) eqn:Elt.
      * destruct front as [|x front]; cbn [app] in H.
        -- inversion H as [[Hc Haa Hi Hnil]]. subst c0 a0.
           exists [], cs. repeat split; try assumption; [intros ? ? []|].
           intros c' a' Hc' Ha'.
           apply flt_fin_false.
           exact (proj1 (improvements_nil cs (Fin a) (i0 + 1)) Hnil
                        c' a' Hc' Ha').
        -- inversion H as [[Hx Hrest]].
           assert (Hin : In (c, a, i) (lines (Fin a0) (i0 + 1) cs)).
           { rewrite Hrest. apply in_or_app. right. now left. }
           apply improvements_in in Hin. destruct Hin as (_ & Hlt & _).
           apply flt_fin_true in Hlt.
           destruct (IH _ _ _ _ _ _ Hrest)
             as (before & after & -> & _ & Hb & Haf).
           exists (c0 :: before), after. repeat split; try assumption.
           intros c' a' [<-|Hc'] Ha'; [|now apply (Hb c')].
           rewrite E0 in Ha'. inversion Ha'; subst. exact Hlt.
      * apply Hskip; [exact Hbest | | exact H].
        intros a1 Ha1. inversion Ha1; subst.
        eapply flt_between; eassumption.
    + apply Hskip; [exact Hbest | discriminate | exact H].
Qed.

End ProgressFacts.

Section OptimizeTrace.

Variable fit : Series -> order -> seasonal_order -> option Q.
Variable sort : list row -> list row.
Variables (series : Series) (d ds s : Z).

Local Abbreviation quiet := (filter (fun e => negb (is_progress e))).

Lemma best_lines_app out1 out2 :
  best_lines (out1 ++ out2) = best_lines out1 ++ best_lines out2.
Proof. unfold best_lines. apply flat_map_app. Qed.

(** The loop, observed: the header once, a fit per candidate, and the
    progress lines of the running best. *)
Lemma optimize_loop_observed display n : forall cs st out h,
  display_header st = Some h ->
  exists out' st',
    optimize_loop fit series d ds s display n cs st out = Returns out' st' /\
    quiet out' =
      quiet out
        ++ (if h then match cs with [] => [] | _ :: _ => [PrintHeader n] end
            else [])
        ++ map (fit_call d ds s) cs /\
    best_lines out' =
      best_lines out
        ++ (if display
            then improvements fit series d ds s (best_aic st) (iter_done st) cs
            else []).
Proof.
  induction cs as [|c cs IH]; intros st out h Hh.
  - exists out, st. split; [reflexivity|].
    destruct h, display; cbn [map improvements app]; now rewrite !app_nil_r.
  - destruct c as [[[p0 q0] ps0] qs0].
    cbn [optimize_loop]. rewrite Hh.
    cbn [improvements aic_of map fit_call].
    destruct (fit series (p0, d, q0) (ps0, ds, qs0, s)) as [a|].
    + edestruct IH as (out' & st' & Hrun & Hq & Hb);
        [| exists out', st'; split; [exact Hrun|]]; [reflexivity|].
      rewrite Hq, Hb. cbn [best_aic iter_done].
      split.
      * destruct h, (flt (Fin a) (best_aic st)), display;
          cbn [andb app]; rewrite ?filter_app; cbn [filter is_progress negb];
          rewrite ?app_nil_r, <- ?app_assoc; reflexivity.
      * destruct h, (flt (Fin a) (best_aic st)), display;
          cbn [andb app]; rewrite ?best_lines_app;
          cbn [best_lines flat_map app];
          rewrite ?app_nil_r, <- ?app_assoc; reflexivity.
    + edestruct IH as (out' & st' & Hrun & Hq & Hb);
        [| exists out', st'; split; [exact Hrun|]]; [reflexivity|].
      rewrite Hq, Hb. cbn [best_aic iter_done].
      split.
      * destruct h; rewrite ?filter_app; cbn [filter is_progress negb app];
          rewrite ?app_nil_r, <- ?app_assoc; reflexivity.
      * destruct h; rewrite ?best_lines_app; cbn [best_lines flat_map app];
          rewrite ?app_nil_r; reflexivity.
Qed.

(** The trace of [optimize] with the display on is the trace of its loop,
    followed by the closing line when it returns. *)
Lemma optimize_trace_on p q ps qs :
  exists out st,
    optimize_loop fit series d ds s true
      (Z.of_nat (length (product p q ps qs))) (product p q ps qs)
      (mkLocals [] PInf 0 (Some true)) [] = Returns out st /\
    (trace (optimize fit sort series p d q ps ds qs s true) = out \/
     exists o so,
       trace (optimize fit sort series p d q ps ds qs s true)
         = out ++ [PrintOptimized o so]).
Proof.
  destruct (optimize_loop_observed true
              (Z.of_nat (length (product p q ps qs)))
              (product p q ps qs)
              (mkLocals [] PInf 0 (Some true)) [] true eq_refl)
    as (out & st & Hrun & _).
  exists out, st. split; [exact Hrun|].
  unfold optimize. rewrite Hrun. cbn [bind].
  destruct (results st); [now left|].
  destruct (sort (r :: l)) as [|[[[[p1 q1] ps1] qs1] a] rest]; [now left|].
  right. cbn [trace]. eexists. eexists. reflexivity.
Qed.

(** X3. With the display on, [optimize] prints the header once, before the
    first fit, and attempts one fit for every candidate of the Cartesian
    product, in order, with the orders [(p, d, q)] and [(P, ds, Q, s)]: a
    failing fit does not end the search.  Apart from the progress lines the
    trace holds nothing else, whether the call returns or raises. *)
Theorem optimize_tries_every_candidate p q ps qs :
  filter (fun e => negb (is_progress e))
         (trace (optimize fit sort series p d q ps ds qs s true))
  = match product p q ps qs with
    | [] => []
    | _ :: _ =>
      PrintHeader (Z.of_nat (length (product p q ps qs)))
        :: map (fit_call d ds s) (product p q ps qs)
    end.
Proof.
  destruct (optimize_trace_on p q ps qs) as (out & st & Hrun & Htrace).
  destruct (optimize_loop_observed true
              (Z.of_nat (length (product p q ps qs)))
              (product p q ps qs)
              (mkLocals [] PInf 0 (Some true)) [] true eq_refl)
    as (out' & st' & Hrun' & Hq & _).
  rewrite Hrun in Hrun'. inversion Hrun'; subst out' st'.
  cbn [filter app] in Hq.
  assert (Hout : quiet (trace (optimize fit sort series p d q ps ds qs s true))
                 = quiet out).
  { destruct Htrace as [->|(o & so & ->)]; [reflexivity|].
    rewrite filter_app. cbn [filter is_progress negb]. apply app_nil_r. }
  rewrite Hout, Hq.
  destruct (product p q ps qs); reflexivity.
Qed.

(** X4. The progress lines [optimize] prints with the display on: each line
    shows a candidate that fit, its AIC and its position in the Cartesian
    product (failed fits are counted); the AIC strictly falls from line to
    line; the last line names the first candidate, in the order of the
    product, that attains the least AIC; and no line is printed exactly
    when no candidate fits. *)
Theorem optimize_progress_lines p q ps qs :
  let lines :=
    best_lines (trace (optimize fit sort series p d q ps ds qs s true)) in
  StronglySorted (fun x y => (line_aic y < line_aic x)%Q) lines /\
  (forall c a i, In (c, a, i) lines ->
     aic_of fit series d ds s c = Some a /\ 1 <= i /\
     nth_error (product p q ps qs) (Z.to_nat (i - 1)) = Some c) /\
  (forall front c a i, lines = front ++ [(c, a, i)] ->
     first_minimum fit series d ds s (product p q ps qs) c) /\
  (lines = [] <->
   forall c, In c (product p q ps qs) -> aic_of fit series d ds s c = None).
Proof.
  assert (Hlines :
    best_lines (trace (optimize fit sort series p d q ps ds qs s true))
    = improvements fit series d ds s PInf 0 (product p q ps qs)).
  { destruct (optimize_trace_on p q ps qs) as (out & st & Hrun & Htrace).
    destruct (optimize_loop_observed true
                (Z.of_nat (length (product p q ps qs)))
                (product p q ps qs)
                (mkLocals [] PInf 0 (Some true)) [] true eq_refl)
      as (out' & st' & Hrun' & _ & Hb).
    rewrite Hrun in Hrun'. inversion Hrun'; subst out' st'.
    cbn [best_lines flat_map app best_aic iter_done] in Hb.
    destruct Htrace as [->|(o & so & ->)]; [exact Hb|].
    rewrite best_lines_app, Hb. cbn [best_lines flat_map]. apply app_nil_r. }
  cbv zeta. rewrite Hlines. split; [apply improvements_decreasing|].
  split; [|split].
  - intros c a i Hin. apply improvements_in in Hin.
    destruct Hin as (Ha & _ & Hi & Hn).
    split; [exact Ha|]. split; [lia|].
    now replace (i - 1) with (i - 0 - 1) by lia.
  - intros front c a i H. apply improvements_last in H.
    destruct H as (before & after & Hcs & Ha & Hb & Haf).
    exists before, after, a. auto.
  - rewrite improvements_nil. split.
    + intros H c Hc. destruct (aic_of fit series d ds s c) as [a|] eqn:E;
        [|reflexivity].
      specialize (H c a Hc E). discriminate.
    + intros H c a Hc Ha. rewrite (H c Hc) in Ha. discriminate.
Qed.

End OptimizeTrace.

(** ** The stationarity search: samples, traces and failures *)

Lemma align_skipn op : forall j x y,
  skipn j (align op x y) = align op (skipn j x) (skipn j y).
Proof.
  induction j as [|j IH]; intros x y; [reflexivity|].
  destruct x as [|a x], y as [|b y]; cbn [align skipn map].
  - reflexivity.
  - rewrite skipn_map. destruct (skipn j y); reflexivity.
  - change (skipn j (map (fun _ : float => NaN) x)
            = align op (skipn j x) []).
    rewrite skipn_map. destruct (skipn j x); reflexivity.
  - apply IH.
Qed.

Lemma length_align op : forall x y,
  length x = length y -> length (align op x y) = length x.
Proof.
  induction x as [|a x IH]; intros [|b y] H; try discriminate;
    cbn [align length]; [reflexivity|].
  f_equal. apply IH. now inversion H.
Qed.

(** The sample at a lag that is not negative, without the detour through
    the padded Series: the series from position [k] on, minus the series
    from its start. *)
Lemma lagged_unpadded series k :
  0 <= k ->
  lagged series k =
  align fsub (skipn (Z.to_nat k) series)
             (firstn (length series - Z.to_nat k) series).
Proof.
  intros Hk. unfold lagged, data_stat, shift, slice_from.
  destruct (k <? 0) eqn:E; [lia|].
  rewrite align_skipn. f_equal.
  rewrite skipn_app, repeat_length.
  destruct (Nat.le_gt_cases (Z.to_nat k) (length series)) as [Hle|Hgt].
  - rewrite Nat.min_l by exact Hle.
    rewrite skipn_all2 by (rewrite repeat_length; lia).
    rewrite Nat.sub_diag. reflexivity.
  - rewrite Nat.min_r by lia.
    rewrite skipn_all2 by (rewrite repeat_length; lia).
    rewrite Nat.sub_diag.
    replace (length series - Z.to_nat k)%nat with 0%nat by lia.
    cbn [firstn app]. apply skipn_nil.
Qed.

(** X5. The sample handed to the tests at a lag [k >= 0] has [k] points
    fewer than the series (none when the series has at most [k] points), and
    its point [i] is [series[k + i] - series[i]]: the padding of [shift]
    never reaches a test. *)
Theorem lagged_sample series k :
  0 <= k ->
  length (lagged series k) = (length series - Z.to_nat k)%nat /\
  forall i a b,
    nth_error series (Z.to_nat k + i) = Some a ->
    nth_error series i = Some b ->
    nth_error (lagged series k) i = Some (fsub a b).
Proof.
  intros Hk. rewrite (lagged_unpadded series k Hk). split.
  - rewrite length_align; [apply length_skipn|].
    rewrite length_skipn, length_firstn. lia.
  - intros i a b Ha Hb. apply nth_error_align.
    + now rewrite nth_error_skipn.
    + rewrite nth_error_firstn.
      assert (Hlt : (Z.to_nat k + i < length series)%nat).
      { apply nth_error_Some. congruence. }
      destruct (Nat.ltb_spec i (length series - Z.to_nat k)); [exact Hb|lia].
Qed.

(** X6. At lag 0 the sample is the series minus itself: for a series of
    finite values every point of it is zero, so the first stationarity test
    of [seasonality] sees a constant sample whatever the data. *)
Theorem lagged_zero_is_flat series :
  all_finite series ->
  length (lagged series 0) = length series /\
  forall v, In v (lagged series 0) -> is_zero v.
Proof.
  intros Hfin. rewrite (lagged_unpadded series 0) by lia.
  change (Z.to_nat 0) with 0%nat. rewrite Nat.sub_0_r, firstn_all.
  cbn [skipn]. rewrite align_self. split; [apply length_map|].
  intros v Hv. apply in_map_iff in Hv. destruct Hv as (x & <- & Hx).
  destruct (Hfin x Hx) as [a ->]. cbn. ring.
Qed.

Lemma lagged_sample_witness :
  0 <= 2 /\
  length (lagged series_sample 2) = (length series_sample - 2)%nat /\
  nth_error (lagged series_sample 2) 1 = Some (fsub (Fin 13) (Fin 12)).
Proof.
  assert (H : 0 <= 2) by lia.
  destruct (lagged_sample series_sample 2 H) as [Hlen Hnth].
  split; [exact H|]. split; [exact Hlen|].
  exact (Hnth 1%nat (Fin 13) (Fin 12) eq_refl eq_refl).
Defined.

Lemma lagged_zero_is_flat_witness :
  all_finite series_sample /\
  length (lagged series_sample 0) = length series_sample /\
  is_zero (fsub (Fin 10) (Fin 10)).
Proof.
  assert (H : all_finite series_sample).
  { intros v Hv. unfold series_sample in Hv. apply in_map_iff in Hv.
    destruct Hv as (z & <- & _). eexists. reflexivity. }
  destruct (lagged_zero_is_flat series_sample H) as [Hlen Hzero].
  split; [exact H|]. split; [exact Hlen|].
  apply Hzero. now left.
Defined.

Lemma range_nonpositive n : n <= 0 -> range n = [].
Proof.
  intros H. unfold range. now replace (Z.to_nat n) with 0%nat by lia.
Qed.

Lemma range_cut n k :
  0 <= k < n -> exists after, range n = range k ++ k :: after.
Proof.
  intros H. unfold range.
  replace (Z.to_nat n)
    with (Z.to_nat k + S (Z.to_nat n - Z.to_nat k - 1))%nat by lia.
  rewrite seq_app, map_app. cbn [seq map Nat.add].
  rewrite Z2Nat.id by lia. eauto.
Qed.

Section SeasonalityMore.

Variable adfuller : Series -> result Q.
Variable acf : Series -> result (Q * list Q).
Variable series : Series.


(** The first loop stops at the first test that raises. *)
Lemma d_loop_raises t : forall before k after out e,
  no_improvement adfuller series t before ->
  adfuller (lagged series k) = Err e ->
  d_loop adfuller series (before ++ k :: after) (Fin t) None out
    = Raises (out ++ adfuller_calls series (before ++ [k])) e.
Proof.
  induction before as [|k0 before IH]; intros k after out e Hno He.
  - cbn [app d_loop]. fold (lagged series k). rewrite He. reflexivity.
  - cbn [app d_loop]. fold (lagged series k0).
    destruct (Hno k0 (or_introl eq_refl)) as (pv & -> & Hle).
    cbn [call bind]. unfold fgt.
    rewrite (proj2 (flt_fin_false pv t) Hle).
    rewrite (IH k after _ e); [|intros j Hj; apply Hno; now right|exact He].
    rewrite <- app_assoc. reflexivity.
Qed.



End SeasonalityMore.



(** X8. With [par_range <= 0] neither loop runs: [seasonality] calls no
    service and raises [UnboundLocalError] for [d_best]. *)
Theorem seasonality_empty_range adfuller acf series par_range graph :
  par_range <= 0 ->
  seasonality adfuller acf series par_range true graph
    = Raises [] (UnboundLocalError "d_best").
Proof.
  intros H. unfold seasonality. now rewrite (range_nonpositive _ H).
Qed.

Lemma seasonality_empty_range_witness :
  -3 <= 0 /\
  seasonality adfuller_sample acf_sample series_sample (-3) true false
    = Raises [] (UnboundLocalError "d_best").
Proof.
  assert (H : -3 <= 0) by lia.
  split; [exact H|].
  exact (seasonality_empty_range adfuller_sample acf_sample series_sample
           (-3) false H).
Defined.



(** X10. A stationarity test that raises in the first loop ends the call
    with that exception: when the lags before [k] gave no p-value below
    0.0001 and the test at lag [k] raises, [seasonality] raises the same
    exception after the tests at the lags [0 .. k], and no autocorrelation
    is computed. *)
Theorem seasonality_test_failure
    adfuller acf series par_range graph k e :
  0 <= k < par_range ->
  no_improvement adfuller series p_value_threshold (range k) ->
  adfuller (lagged series k) = Err e ->
  seasonality adfuller acf series par_range true graph
    = Raises (adfuller_calls series (range (k + 1))) e.
Proof.
  intros Hk Hno He. unfold seasonality.
  destruct (range_cut par_range k Hk) as [after ->].
  rewrite (d_loop_raises adfuller series p_value_threshold
             (range k) k after [] e Hno He).
  cbn [bind app]. now rewrite range_succ by lia.
Qed.

Lemma seasonality_test_failure_witness :
  0 <= 4 < 5 /\
  no_improvement adfuller_strict series_sample p_value_threshold (range 4) /\
  adfuller_strict (lagged series_sample 4)
    = Err (ValueError "sample too short") /\
  seasonality adfuller_strict acf_sample series_sample 5 true false
    = Raises (adfuller_calls series_sample (range (4 + 1)))
             (ValueError "sample too short").
Proof.
  assert (Hk : 0 <= 4 < 5) by lia.
  assert (Hno : no_improvement adfuller_strict series_sample
                  p_value_threshold (range 4)).
  { intros k Hk'. apply in_range in Hk'. exists (1 # 2)%Q.
    split; [|discriminate].
    assert (Hcases : k = 0 \/ k = 1 \/ k = 2 \/ k = 3) by lia.
    destruct Hcases as [ -> | [ -> | [ -> | -> ] ] ]; reflexivity. }
  assert (He : adfuller_strict (lagged series_sample 4)
               = Err (ValueError "sample too short")) by reflexivity.
  split; [exact Hk|]. split; [exact Hno|]. split; [exact He|].
  exact (seasonality_test_failure adfuller_strict acf_sample series_sample 5
           false 4 _ Hk Hno He).
Defined.



(** ** The error measure: window, sign and size *)

Lemma slice_from_10_app {A : Type} (a w : list A) :
  length a = 10%nat -> slice_from 10 (a ++ w) = w.
Proof.
  intros H. unfold slice_from. cbn [Z.ltb Z.compare].
  change (Z.to_nat 10) with 10%nat.
  rewrite skipn_app, H, skipn_all2 by lia. reflexivity.
Qed.

Lemma slice_from_10_short {A : Type} (x : list A) :
  (length x <= 10)%nat -> slice_from 10 x = [].
Proof.
  intros H. unfold slice_from. cbn [Z.ltb Z.compare].
  change (Z.to_nat 10) with 10%nat. now apply skipn_all2.
Qed.

(** X12. [error] does not look at the first ten points: two calls whose
    actual values and whose predictions agree from the eleventh point on
    give the same result. *)
Theorem error_ignores_warm_up a a' b b' w1 w2 graph :
  length a = 10%nat -> length a' = 10%nat ->
  length b = 10%nat -> length b' = 10%nat ->
  error (a ++ w1) (b ++ w2) graph = error (a' ++ w1) (b' ++ w2) graph.
Proof.
  intros Ha Ha' Hb Hb'. unfold error.
  now rewrite !slice_from_10_app by assumption.
Qed.

Lemma error_ignores_warm_up_witness :
  length warm_up = 10%nat /\
  length (map of_int [3; 1; 4; 1; 5; 9; 2; 6; 5; 3]) = 10%nat /\
  error (warm_up ++ map of_int [5; 4]) (warm_up ++ map of_int [4; 5]) false
    = error (map of_int [3; 1; 4; 1; 5; 9; 2; 6; 5; 3] ++ map of_int [5; 4])
            (map of_int [3; 1; 4; 1; 5; 9; 2; 6; 5; 3] ++ map of_int [4; 5])
            false.
Proof.
  split; [reflexivity|]. split; [reflexivity|].
  exact (error_ignores_warm_up warm_up
           (map of_int [3; 1; 4; 1; 5; 9; 2; 6; 5; 3])
           warm_up (map of_int [3; 1; 4; 1; 5; 9; 2; 6; 5; 3])
           (map of_int [5; 4]) (map of_int [4; 5]) false
           eq_refl eq_refl eq_refl eq_refl).
Defined.

Lemma align_nil_l op y : align op [] y = map (fun _ => NaN) y.
Proof. reflexivity. Qed.

Lemma align_nil_r op x : align op x [] = map (fun _ => NaN) x.
Proof. destruct x; reflexivity. Qed.

Lemma series_mean_all_nan x :
  (forall v, In v x -> v = NaN) -> series_mean x = NaN.
Proof.
  intros H. unfold series_mean.
  destruct (filter (fun v => negb (is_nan v)) x) as [|v valid] eqn:E;
    [reflexivity|].
  assert (Hin : In v (filter (fun v => negb (is_nan v)) x))
    by (rewrite E; now left).
  apply filter_In in Hin. destruct Hin as [Hin Hn].
  rewrite (H v Hin) in Hn. discriminate.
Qed.

(** X13. When the actual values or the predictions have at most ten points,
    nothing is scored and [error] returns [nan], without a failure. *)
Theorem error_short_series data predicted_mean graph :
  (length data <= 10)%nat \/ (length predicted_mean <= 10)%nat ->
  error data predicted_mean graph
    = Returns (if graph then [Plot] else []) NaN.
Proof.
  intros H. unfold error. f_equal. apply series_mean_all_nan.
  intros v Hv. apply in_map_iff in Hv. destruct Hv as (r & <- & Hr).
  assert (Hnan : r = NaN).
  { destruct H as [H|H]; rewrite (slice_from_10_short _ H) in Hr.
    - rewrite align_nil_l in Hr. apply in_map_iff in Hr.
      now destruct Hr as (? & <- & _).
    - rewrite align_nil_r in Hr. apply in_map_iff in Hr.
      now destruct Hr as (? & <- & _). }
  now subst r.
Qed.

Lemma error_short_series_witness :
  ((length series_sample <= 10)%nat \/ (length actual_sample <= 10)%nat) /\
  error series_sample actual_sample true = Returns [Plot] NaN.
Proof.
  assert (H : (length series_sample <= 10)%nat \/
              (length actual_sample <= 10)%nat).
  { left. cbn. lia. }
  split; [exact H|].
  exact (error_short_series series_sample actual_sample true H).
Defined.

Lemma percent_error_not_negative v : not_negative (percent_error v).
Proof.
  destruct v as [a| | |]; [|right; now left|right; now left|now left].
  right. right. eexists. split; [reflexivity|].
  apply Qmult_le_0_compat; [apply Qabs_nonneg|discriminate].
Qed.

Lemma fold_fadd_not_negative : forall l acc,
  (forall v, In v l -> v = PInf \/ exists q, v = Fin q /\ (0 <= q)%Q) ->
  (acc = PInf \/ exists q, acc = Fin q /\ (0 <= q)%Q) ->
  fold_left fadd l acc = PInf \/
  exists q, fold_left fadd l acc = Fin q /\ (0 <= q)%Q.
Proof.
  induction l as [|v l IH]; intros acc Hl Hacc; [exact Hacc|].
  cbn [fold_left]. apply IH; [intros v' Hv'; apply Hl; now right|].
  destruct (Hl v (or_introl eq_refl)) as [->|(q & -> & Hq)],
           Hacc as [->|(q' & -> & Hq')]; cbn [fadd]; try (now left).
  right. eexists. split; [reflexivity|].
  rewrite <- (Qplus_0_l 0). now apply Qplus_le_compat.
Qed.

(** X14. [error] never returns a negative number: its result is [nan],
    [inf] or a rational that is not negative. *)
Theorem error_not_negative data predicted_mean graph :
  exists v,
    error data predicted_mean graph
      = Returns (if graph then [Plot] else []) v /\
    not_negative v.
Proof.
  eexists. split; [reflexivity|].
  unfold series_mean.
  set (l := map percent_error _).
  assert (Hvalid : forall v, In v (filter (fun v => negb (is_nan v)) l) ->
            v = PInf \/ exists q, v = Fin q /\ (0 <= q)%Q).
  { intros v Hv. apply filter_In in Hv. destruct Hv as [Hv Hn].
    unfold l in Hv. apply in_map_iff in Hv. destruct Hv as (r & <- & _).
    destruct (percent_error_not_negative r) as [E|[E|E]];
      [rewrite E in Hn; discriminate | now left | now right]. }
  destruct (filter (fun v => negb (is_nan v)) l) as [|x valid];
    [now left|].
  destruct (fold_fadd_not_negative (x :: valid) (Fin 0) Hvalid)
    as [->|(q & -> & Hq)].
  - right. exists 0%Q. split; [reflexivity|apply Qle_refl].
  - right. left. cbn [length]. unfold of_int. cbn [fdiv].
    now rewrite (proj2 (count_positive (length valid))).
  - right. right. cbn [length]. unfold of_int. cbn [fdiv].
    rewrite (proj1 (count_positive (length valid))).
    eexists. split; [reflexivity|].
    apply Qle_shift_div_l; [reflexivity|].
    now rewrite Qmult_0_l.
Qed.







(** ** The pipeline of [main] *)

Import Pipeline PipelineSamples.









Section MainFacts.

Variables Results Prediction : Type.
Variable read_csv : result Series.
Variable fit : Series -> order -> seasonal_order -> option Q.
Variable adfuller : Series -> result Q.
Variable acf : Series -> result (Q * list Q).
Variable sort : list row -> list row.
Variable SARIMAX_filter :
  Series -> order -> seasonal_order -> result Results.
Variable get_prediction : Results -> Z -> result Prediction.
Variable conf_int : Prediction -> result unit.
Variable predicted_mean : Prediction -> Series.

Local Abbreviation main_run :=
  (main Results Prediction read_csv fit adfuller acf sort SARIMAX_filter
        get_prediction conf_int predicted_mean).


End MainFacts.


Section MainTheorems.

Variables Results Prediction : Type.
Variable read_csv : result Series.
Variable fit : Series -> order -> seasonal_order -> option Q.
Variable adfuller : Series -> result Q.
Variable acf : Series -> result (Q * list Q).
Variable sort : list row -> list row.
Variable SARIMAX_filter :
  Series -> order -> seasonal_order -> result Results.
Variable get_prediction : Results -> Z -> result Prediction.
Variable conf_int : Prediction -> result unit.
Variable predicted_mean : Prediction -> Series.

Local Abbreviation main_run :=
  (main Results Prediction read_csv fit adfuller acf sort SARIMAX_filter
        get_prediction conf_int predicted_mean).



(** X18. When no lag from 0 to 99 gives the data a p-value below 0.0001,
    [main] ends in the [UnboundLocalError] for [d_best], after the hundred
    stationarity tests and before any model is fit. *)
Theorem main_no_stationary_lag data :
  read_csv = Ok data ->
  no_improvement adfuller data p_value_threshold (range 100) ->
  main_run
    = Failed (CallReadCsv :: map Inner (adfuller_calls data (range 100)))
             (UnboundLocalError "d_best").
Proof.
  intros Hread Hno. unfold main. rewrite Hread. cbn [service then_ app].
  unfold seasonality.
  rewrite (d_loop_no_improvement adfuller data p_value_threshold
             (range 100) [] Hno).
  reflexivity.
Qed.

End MainTheorems.



Lemma main_no_stationary_lag_witness :
  no_improvement adfuller_half data_sample p_value_threshold (range 100) /\
  main _ _ (Ok data_sample) fit_sample adfuller_half acf_flat insertion_sort
       filter_sample (prediction_sample data_sample) conf_int_sample
       (fun x => x)
  = Failed (CallReadCsv
              :: map Inner (adfuller_calls data_sample (range 100)))
           (UnboundLocalError "d_best").
Proof.
  assert (Hno : no_improvement adfuller_half data_sample p_value_threshold
                               (range 100)).
  { intros k _. exists (1 # 2)%Q. split; [reflexivity|discriminate]. }
  split; [exact Hno|].
  exact (main_no_stationary_lag _ _ (Ok data_sample) fit_sample adfuller_half
           acf_flat insertion_sort filter_sample
           (prediction_sample data_sample) conf_int_sample (fun x => x)
           data_sample eq_refl Hno).
Defined.

Lemma optimize_result_in_ranges_witness :
  sorts_by_aic insertion_sort /\
  In 2 [0; 1; 2; 3] /\ In 0 [0; 1] /\ In 0 [0] /\ In 0 [0].
Proof.
  split; [exact insertion_sort_sorts|].
  apply (optimize_result_in_ranges fit_sample insertion_sort series_sample
           [0; 1; 2; 3] 0 [0; 1] [0] 0 [0] 0 true
           (trace (optimize fit_sample insertion_sort series_sample
                            [0; 1; 2; 3] 0 [0; 1] [0] 0 [0] 0 true))
           2 0 0 0 insertion_sort_sorts).
  vm_compute. reflexivity.
Defined.

Lemma optimize_empty_range_witness :
  (([0; 1] : list Z) = [] \/ ([] : list Z) = [] \/
   ([0] : list Z) = [] \/ ([0] : list Z) = []) /\
  optimize fit_sample insertion_sort series_sample [0; 1] 0 [] [0] 0 [0] 0
           false
    = Raises [] (ValueError length_mismatch).
Proof.
  assert (H : ([0; 1] : list Z) = [] \/ ([] : list Z) = [] \/
              ([0] : list Z) = [] \/ ([0] : list Z) = [])
    by (right; left; reflexivity).
  split; [exact H|].
  exact (optimize_empty_range fit_sample insertion_sort series_sample
           [0; 1] 0 [] [0] 0 [0] 0 false H).
Defined.

(** ** The grid search: what is printed against what is returned *)

Lemma length_flat_map_const {A B : Type} (f : A -> list B) k : forall l,
  (forall x, length (f x) = k) ->
  length (flat_map f l) = (length l * k)%nat.
Proof.
  induction l as [|x l IH]; intros H; [reflexivity|].
  cbn [flat_map length]. rewrite length_app, H, IH by exact H. lia.
Qed.

Lemma length_product p q ps qs :
  length (product p q ps qs)
  = (length p * (length q * (length ps * length qs)))%nat.
Proof.
  unfold product.
  apply length_flat_map_const. intros a.
  apply length_flat_map_const. intros b.
  rewrite (length_flat_map_const _ (length qs)); [reflexivity|].
  intros c. apply length_map.
Qed.

Section PrintedAndReturned.

Variable fit : Series -> order -> seasonal_order -> option Q.
Variable sort : list row -> list row.
Variables (series : Series) (p : list Z) (d : Z) (q ps : list Z) (ds : Z)
          (qs : list Z) (s : Z).

(** The progress lines of a call with the display on. *)
Lemma optimize_best_lines :
  best_lines (trace (optimize fit sort series p d q ps ds qs s true))
  = improvements fit series d ds s PInf 0 (product p q ps qs).
Proof.
  destruct (optimize_trace_on fit sort series d ds s p q ps qs)
    as (out & st & Hrun & Htrace).
  destruct (optimize_loop_observed fit series d ds s true
              (Z.of_nat (length (product p q ps qs)))
              (product p q ps qs)
              (mkLocals [] PInf 0 (Some true)) [] true eq_refl)
    as (out' & st' & Hrun' & _ & Hb).
  rewrite Hrun in Hrun'. inversion Hrun'; subst out' st'.
  cbn [best_lines flat_map app best_aic iter_done] in Hb.
  destruct Htrace as [->|(o & so & ->)]; [exact Hb|].
  rewrite best_lines_app, Hb. cbn [best_lines flat_map]. apply app_nil_r.
Qed.

(** X19. When [optimize] returns (under a sort in ascending order of AIC),
    it has printed at least one progress line, and the AIC on the last
    line is the AIC of the tuple it returns. *)
Theorem optimize_last_line_matches display out best :
  sorts_by_aic sort ->
  optimize fit sort series p d q ps ds qs s display = Returns out best ->
  exists front c a i a0,
    best_lines out = front ++ [(c, a, i)] /\
    aic_of fit series d ds s best = Some a0 /\ (a0 == a)%Q.
Proof.
  intros Hsort Hret.
  pose proof (optimize_returns_minimum _ _ _ _ _ _ _ _ _ _ _ _ _
                Hsort Hret) as (Hin & a0 & Ha0 & Hmin).
  pose proof (proj1 (optimize_returns_inv _ _ _ _ _ _ _ _ _ _ _ _ _ Hret))
    as ->.
  pose proof optimize_best_lines as Hlines.
  rewrite Hret in Hlines. cbn [trace] in Hlines.
  destruct (improvements fit series d ds s PInf 0 (product p q ps qs))
    as [|l ls] eqn:E.
  - exfalso.
    pose proof (proj1 (improvements_nil fit series d ds s _ PInf 0) E
                      best a0 Hin Ha0) as H.
    discriminate.
  - destruct (exists_last (l := l :: ls)) as (front & [[c a] i] & Hlast);
      [discriminate|].
    rewrite Hlast in E.
    destruct (improvements_last fit series d ds s _ _ _ _ _ _ _ E)
      as (before & after & Hcs & Ha & Hb & Haf).
    exists front, c, a, i, a0.
    split; [now rewrite Hlines, Hlast|]. split; [exact Ha0|].
    apply Qle_antisym.
    + apply (Hmin c a); [|exact Ha].
      rewrite Hcs. apply in_or_app. right. now left.
    + rewrite Hcs in Hin. apply in_app_or in Hin.
      destruct Hin as [Hin|[<-|Hin]].
      * apply Qlt_le_weak. exact (Hb best a0 Hin Ha0).
      * rewrite Ha in Ha0. inversion Ha0. apply Qle_refl.
      * exact (Haf best a0 Hin Ha0).
Qed.

(** X20. With the display on and no candidate range empty, the header
    [optimize] prints announces as many combinations as the sizes of the
    four ranges multiply to. *)
Theorem optimize_header_count :
  p <> [] -> q <> [] -> ps <> [] -> qs <> [] ->
  In (PrintHeader
        (Z.of_nat (length p) * Z.of_nat (length q)
         * Z.of_nat (length ps) * Z.of_nat (length qs)))
     (trace (optimize fit sort series p d q ps ds qs s true)).
Proof.
  intros Hp Hq Hps Hqs.
  destruct (optimize_trace_on fit sort series d ds s p q ps qs)
    as (out & st & Hrun & Htrace).
  destruct (optimize_loop_observed fit series d ds s true
              (Z.of_nat (length (product p q ps qs)))
              (product p q ps qs)
              (mkLocals [] PInf 0 (Some true)) [] true eq_refl)
    as (out' & st' & Hrun' & Hquiet & _).
  rewrite Hrun in Hrun'. inversion Hrun'; subst out' st'.
  cbn [filter app] in Hquiet.
  assert (Hne : product p q ps qs <> []).
  { intros E. apply (f_equal (@length param)) in E.
    rewrite length_product in E. cbn [length] in E.
    destruct p, q, ps, qs; try contradiction; discriminate. }
  assert (Hout : In (PrintHeader (Z.of_nat (length (product p q ps qs))))
                    out).
  { assert (Hin : In (PrintHeader (Z.of_nat (length (product p q ps qs))))
                     (filter (fun e => negb (is_progress e)) out)).
    { rewrite Hquiet. destruct (product p q ps qs); [contradiction|].
      now left. }
    apply filter_In in Hin. exact (proj1 Hin). }
  rewrite length_product in Hout.
  replace (Z.of_nat (length p) * Z.of_nat (length q)
           * Z.of_nat (length ps) * Z.of_nat (length qs))
    with (Z.of_nat (length p * (length q * (length ps * length qs))))
    by lia.
  destruct Htrace as [->|(o & so & ->)]; [exact Hout|].
  apply in_or_app. now left.
Qed.

End PrintedAndReturned.

Lemma optimize_last_line_matches_witness :
  sorts_by_aic insertion_sort /\
  exists front c a i a0,
    best_lines
      (trace (optimize fit_wavy insertion_sort series_sample
                       [0; 1; 2; 3] 0 [0; 1; 2] [0] 0 [0] 0 true))
      = front ++ [(c, a, i)] /\
    aic_of fit_wavy series_sample 0 0 0 (2, 1, 0, 0) = Some a0 /\
    (a0 == a)%Q.
Proof.
  split; [exact insertion_sort_sorts|].
  apply (optimize_last_line_matches fit_wavy insertion_sort series_sample
           [0; 1; 2; 3] 0 [0; 1; 2] [0] 0 [0] 0 true _ (2, 1, 0, 0)
           insertion_sort_sorts).
  vm_compute. reflexivity.
Defined.

Lemma optimize_header_count_witness :
  In (PrintHeader (Z.of_nat 4 * Z.of_nat 3 * Z.of_nat 1 * Z.of_nat 1))
     (trace (optimize fit_wavy insertion_sort series_sample
                      [0; 1; 2; 3] 0 [0; 1; 2] [0] 0 [0] 0 true)).
Proof.
  apply (optimize_header_count fit_wavy insertion_sort series_sample
           [0; 1; 2; 3] 0 [0; 1; 2] [0] 0 [0] 0); discriminate.
Defined.
